(** * QTads display widget: pointer interaction (src/dispwidget.cc)

    A shallow embedding of [DisplayWidget]'s mouse handlers.  The widget
    keeps two link pointers ([fHoverLink], [fClickedLink]), a selection
    flag and the selection origin.  Everything it talks to (the formatter,
    the links, the status bar, the cursor, the game window) is made
    explicit: what the widget reads from them is a field of [Env], what it
    writes to them is a field of the state record. *)

From stdpp Require Import gmap strings list.
From Stdlib Require Import ZArith Ascii.

Local Open Scope Z_scope.

(** ** Data *)

(** Pointer identities of [CHtmlDispLink] and [CHtmlDisp] objects. *)
Abbreviation Link := nat.
Abbreviation Disp := nat.

(** The three values handed to [set_clicked]. *)
Inductive LinkMode :=
  | CHtmlDispLink_none
  | CHtmlDispLink_hover
  | CHtmlDispLink_clicked.

#[global] Instance LinkMode_eq_dec : EqDecision LinkMode.
Proof. solve_decision. Defined.

(** [QPoint]; a null point has both coordinates zero. *)
Record QPoint := mkQPoint { qx : Z; qy : Z }.

#[global] Instance QPoint_eq_dec : EqDecision QPoint.
Proof. solve_decision. Defined.

Definition isNull (p : QPoint) : bool := (qx p =? 0) && (qy p =? 0).

(** [Qt::LeftButton] in the [buttons()] mask of a mouse event. *)
Definition LeftButton : Z := 1.
Definition RightButton : Z := 2.

Definition leftDown (buttons : Z) : bool := negb (Z.land buttons LeftButton =? 0).

(** Cursor of the widget: [unsetCursor] gives the default one back. *)
Inductive CursorShape := DefaultCursor | PointingHandCursor.

#[global] Instance CursorShape_eq_dec : EqDecision CursorShape.
Proof. solve_decision. Defined.

(** One call of [processCommand(cmd, strlen(cmd), append, enter, OS_CMD_NONE)]. *)
Record Command := mkCommand {
  cmd_text : string;
  cmd_len : nat;
  cmd_append : bool;
  cmd_enter : bool }.

#[global] Instance Command_eq_dec : EqDecision Command.
Proof. solve_decision. Defined.

(** What the handlers read: the two settings, the formatter's queries, the
    attributes of links and display objects, and the widget-relative
    position of the global cursor ([mapFromGlobal(QCursor::pos())]).  Their
    code is outside dispwidget.cc, so they are taken as given. *)
Record Env := mkEnv {
  enableLinks : bool;
  highlightLinks : bool;
  find_by_pos : QPoint -> option Disp;
  get_link : Disp -> Z -> Z -> option Link;
  get_alt_text : Disp -> option string;
  is_clickable_link : Link -> bool;
  get_url : Link -> string;
  get_append : Link -> bool;
  get_noenter : Link -> bool;
  find_textofs_by_pos : QPoint -> N;
  get_text_ofs_max : N;
  mapFromGlobalCursor : QPoint }.

(** The widget's members, followed by the state of its collaborators that
    the handlers write: the visual mode of every link, the calls of
    [set_clicked] in order, the cursor, the status bar message, the calls of
    [set_sel_range] in order and the commands sent to the game window. *)
#[projections(primitive)]
Record DisplayWidget := mkDisplayWidget {
  fHoverLink : option Link;
  fClickedLink : option Link;
  fInSelectMode : bool;
  fSelectOrigin : QPoint;
  clicked_ : gmap nat LinkMode;
  set_clicked_calls : list (Link * LinkMode);
  cursor : CursorShape;
  statusMessage : string;
  sel_range_calls : list (N * N);
  commands : list Command }.

(** The constructor: no link tracked, not selecting; links start unhighlighted. *)
Definition initial : DisplayWidget :=
  {| fHoverLink := None; fClickedLink := None; fInSelectMode := false;
     fSelectOrigin := mkQPoint 0 0; clicked_ := ∅; set_clicked_calls := [];
     cursor := DefaultCursor; statusMessage := EmptyString;
     sel_range_calls := []; commands := [] |}.

(** Visual mode of a link; a link never written is in mode none. *)
Definition link_mode (w : DisplayWidget) (l : Link) : LinkMode :=
  default CHtmlDispLink_none (clicked_ w !! l).

(** ** Primitive writes *)

Definition set_fHoverLink (v : option Link) (w : DisplayWidget) : DisplayWidget :=
  mkDisplayWidget v (fClickedLink w) (fInSelectMode w) (fSelectOrigin w) (clicked_ w)
    (set_clicked_calls w) (cursor w) (statusMessage w) (sel_range_calls w) (commands w).

Definition set_fClickedLink (v : option Link) (w : DisplayWidget) : DisplayWidget :=
  mkDisplayWidget (fHoverLink w) v (fInSelectMode w) (fSelectOrigin w) (clicked_ w)
    (set_clicked_calls w) (cursor w) (statusMessage w) (sel_range_calls w) (commands w).

Definition set_fInSelectMode (v : bool) (w : DisplayWidget) : DisplayWidget :=
  mkDisplayWidget (fHoverLink w) (fClickedLink w) v (fSelectOrigin w) (clicked_ w)
    (set_clicked_calls w) (cursor w) (statusMessage w) (sel_range_calls w) (commands w).

Definition set_fSelectOrigin (v : QPoint) (w : DisplayWidget) : DisplayWidget :=
  mkDisplayWidget (fHoverLink w) (fClickedLink w) (fInSelectMode w) v (clicked_ w)
    (set_clicked_calls w) (cursor w) (statusMessage w) (sel_range_calls w) (commands w).

(** Modelled from the spec: [CHtmlDispLink::set_clicked] is declared in
    htmldisp.h and its body is not part of dispwidget.cc.  The spec
    describes it as the single mutator of a link's tri-state visual mode,
    so a call stores the mode in the link; the call itself is also logged. *)
Definition set_clicked (l : Link) (m : LinkMode) (w : DisplayWidget) : DisplayWidget :=
  mkDisplayWidget (fHoverLink w) (fClickedLink w) (fInSelectMode w) (fSelectOrigin w)
    (<[l := m]> (clicked_ w)) (set_clicked_calls w ++ [(l, m)])
    (cursor w) (statusMessage w) (sel_range_calls w) (commands w).

Definition setCursor (c : CursorShape) (w : DisplayWidget) : DisplayWidget :=
  mkDisplayWidget (fHoverLink w) (fClickedLink w) (fInSelectMode w) (fSelectOrigin w) (clicked_ w)
    (set_clicked_calls w) c (statusMessage w) (sel_range_calls w) (commands w).

Definition unsetCursor : DisplayWidget -> DisplayWidget := setCursor DefaultCursor.

(** [statusBar()->showMessage(..)] between the two [setUpdatesEnabled]. *)
Definition showMessage (t : string) (w : DisplayWidget) : DisplayWidget :=
  mkDisplayWidget (fHoverLink w) (fClickedLink w) (fInSelectMode w) (fSelectOrigin w) (clicked_ w)
    (set_clicked_calls w) (cursor w) t (sel_range_calls w) (commands w).

Definition clearMessage : DisplayWidget -> DisplayWidget := showMessage EmptyString.

Definition set_sel_range (a b : N) (w : DisplayWidget) : DisplayWidget :=
  mkDisplayWidget (fHoverLink w) (fClickedLink w) (fInSelectMode w) (fSelectOrigin w) (clicked_ w)
    (set_clicked_calls w) (cursor w) (statusMessage w) (sel_range_calls w ++ [(a, b)]) (commands w).

Definition processCommand (c : Command) (w : DisplayWidget) : DisplayWidget :=
  mkDisplayWidget (fHoverLink w) (fClickedLink w) (fInSelectMode w) (fSelectOrigin w) (clicked_ w)
    (set_clicked_calls w) (cursor w) (statusMessage w) (sel_range_calls w) (commands w ++ [c]).

(** ** The handlers *)

(** [DisplayWidget::fInvalidateLinkTracking] (dispwidget.cc, lines 48-64) *)
Definition fInvalidateLinkTracking (w : DisplayWidget) : DisplayWidget :=
  let w1 := match fClickedLink w with
            | Some c => set_fClickedLink None (set_clicked c CHtmlDispLink_none w)
            | None => w
            end in
  let w2 := match fHoverLink w1 with
            | Some h => set_fHoverLink None (set_clicked h CHtmlDispLink_none w1)
            | None => w1
            end in
  clearMessage (unsetCursor w2).

(** The position [updateLinkTracking] looks up: a null [mousePos] is
    replaced by the global cursor position. *)
Definition docPos (env : Env) (mousePos : QPoint) : QPoint :=
  if isNull mousePos then mapFromGlobalCursor env else mousePos.

(** The tail of [updateLinkTracking] (lines 240-249, from "We don't know
    what it was"). *)
Definition forgetTracking (w : DisplayWidget) : DisplayWidget :=
  let w1 := unsetCursor (clearMessage w) in
  match fHoverLink w1 with
  | Some h => set_fHoverLink None (set_clicked h CHtmlDispLink_none w1)
  | None => w1
  end.

(** The test [link != 0 and link->is_clickable_link()], as a function. *)
Definition clickable (env : Env) (link : option Link) : bool :=
  match link with
  | Some l => is_clickable_link env l
  | None => false
  end.

(** The test [get_alt_text() != 0 and strlen(get_alt_text()) > 0]. *)
Definition alt_text (env : Env) (disp : Disp) : option string :=
  match get_alt_text env disp with
  | Some t => if (0 <? String.length t)%nat then Some t else None
  | None => None
  end.

(** The part of [updateLinkTracking] run when the link under the mouse is
    not [fHoverLink] (lines 203-220): forget the previous link and track this one; a
    clickable link also gets the pointing-hand cursor and, if links are
    highlighted and no link is click-tracked, the hover mode. *)
Definition trackNewLink (env : Env) (link : option Link) (w : DisplayWidget)
  : DisplayWidget :=
  let w1 := match fHoverLink w with
            | Some h => set_clicked h CHtmlDispLink_none w
            | None => w
            end in
  let w2 := set_fHoverLink link w1 in
  match link with
  | Some l =>
      if is_clickable_link env l then
        let w' := setCursor PointingHandCursor w2 in
        if highlightLinks env && bool_decide (fClickedLink w' = None)
        then set_clicked l CHtmlDispLink_hover w'
        else w'
      else w2
  | None => w2
  end.

(** The part that follows (lines 222-249): ALT text in the status bar, else
    the target of a clickable link, else the tail that forgets everything. *)
Definition showFeedback (env : Env) (disp : Disp) (link : option Link) (w : DisplayWidget)
  : DisplayWidget :=
  match alt_text env disp with
  | Some t => showMessage t w
  | None =>
      match link with
      | Some l =>
          if is_clickable_link env l then showMessage (get_url env l) w
          else forgetTracking w
      | None => forgetTracking w
      end
  end.

(** [DisplayWidget::updateLinkTracking] (lines 164-250) *)
Definition updateLinkTracking (env : Env) (mousePos : QPoint) (w : DisplayWidget)
  : DisplayWidget :=
  let pos := docPos env mousePos in
  match find_by_pos env pos with
  | None =>
      match fHoverLink w with
      | Some h =>
          clearMessage (unsetCursor (set_fHoverLink None (set_clicked h CHtmlDispLink_none w)))
      | None => w
      end
  | Some disp =>
      if enableLinks env then
        let link := get_link env disp (qx pos) (qy pos) in
        if decide (link = fHoverLink w) then w
        else showFeedback env disp link (trackNewLink env link w)
      else forgetTracking w
  end.

(** [DisplayWidget::mouseMoveEvent] (lines 79-95) *)
Definition mouseMoveEvent (env : Env) (pos : QPoint) (buttons : Z) (w : DisplayWidget)
  : DisplayWidget :=
  if leftDown buttons && fInSelectMode w then
    let startOfs := find_textofs_by_pos env (fSelectOrigin w) in
    let endOfs := find_textofs_by_pos env pos in
    set_sel_range startOfs endOfs w
  else updateLinkTracking env pos w.

(** [DisplayWidget::leaveEvent] (lines 98-102) *)
Definition leaveEvent (w : DisplayWidget) : DisplayWidget := fInvalidateLinkTracking w.

(** [DisplayWidget::mousePressEvent] (lines 105-129) *)
Definition mousePressEvent (env : Env) (pos : QPoint) (buttons : Z) (w : DisplayWidget)
  : DisplayWidget :=
  match fHoverLink w with
  | None =>
      if leftDown buttons && negb (fInSelectMode w) then
        let w1 := set_fSelectOrigin pos (set_fInSelectMode true w) in
        let start := get_text_ofs_max env in
        set_sel_range start start w1
      else w
  | Some h =>
      if is_clickable_link env h && enableLinks env then
        set_fClickedLink (fHoverLink w) (set_clicked h CHtmlDispLink_clicked w)
      else w
  end.

(** [DisplayWidget::mouseReleaseEvent] (lines 132-161) *)
Definition mouseReleaseEvent (env : Env) (w : DisplayWidget) : DisplayWidget :=
  if fInSelectMode w then set_fInSelectMode false w
  else
    match fClickedLink w with
    | None => w
    | Some c =>
        let w1 :=
          if decide (fClickedLink w = fHoverLink w) then
            let cmd := get_url env c in
            let w' := processCommand
                        (mkCommand cmd (String.length cmd) (get_append env c)
                           (negb (get_noenter env c))) w in
            if highlightLinks env then set_clicked c CHtmlDispLink_hover w' else w'
          else
            match fHoverLink w with
            | Some h => set_clicked h CHtmlDispLink_hover w
            | None => w
            end in
        set_fClickedLink None w1
    end.

(** ** Events and runs *)

Inductive Event :=
  | MouseMove (pos : QPoint) (buttons : Z)
  | Leave
  | MousePress (pos : QPoint) (buttons : Z)
  | MouseRelease.

Definition handleEvent (env : Env) (e : Event) (w : DisplayWidget) : DisplayWidget :=
  match e with
  | MouseMove pos buttons => mouseMoveEvent env pos buttons w
  | Leave => leaveEvent w
  | MousePress pos buttons => mousePressEvent env pos buttons w
  | MouseRelease => mouseReleaseEvent env w
  end.

(** Events in arrival order; the settings and the layout may differ from
    one event to the next. *)
Fixpoint run (tr : list (Env * Event)) (w : DisplayWidget) : DisplayWidget :=
  match tr with
  | [] => w
  | (env, e) :: tr' => run tr' (handleEvent env e w)
  end.

Inductive reachable : DisplayWidget -> Prop :=
  | reach_init : reachable initial
  | reach_step env e w : reachable w -> reachable (handleEvent env e w).

(** The link the layout reports under a mouse position. *)
Definition link_at (env : Env) (mousePos : QPoint) : option Link :=
  match find_by_pos env (docPos env mousePos) with
  | Some disp => get_link env disp (qx (docPos env mousePos)) (qy (docPos env mousePos))
  | None => None
  end.

(** ** A small layout used for the worked examples

    Four display objects: at (10,10) a clickable link 1 to "north", at
    (20,20) a clickable link 2 to "south", at (30,30) a picture with ALT
    text "map" and no link, at (40,40) a link 4 that is not clickable.
    Everywhere else there is no display object. *)

Definition demo_find_by_pos (p : QPoint) : option Disp :=
  if decide (p = mkQPoint 10 10) then Some 1%nat
  else if decide (p = mkQPoint 20 20) then Some 2%nat
  else if decide (p = mkQPoint 30 30) then Some 3%nat
  else if decide (p = mkQPoint 40 40) then Some 4%nat
  else None.

Definition demo_get_link (d : Disp) (x y : Z) : option Link :=
  match d with
  | 1%nat => Some 1%nat
  | 2%nat => Some 2%nat
  | 4%nat => Some 4%nat
  | _ => None
  end.

Definition demo_env (links highlight : bool) : Env :=
  {| enableLinks := links;
     highlightLinks := highlight;
     find_by_pos := demo_find_by_pos;
     get_link := demo_get_link;
     get_alt_text := fun d => match d with 3%nat => Some "map"%string | _ => None end;
     is_clickable_link := fun l => bool_decide (l = 1%nat) || bool_decide (l = 2%nat);
     get_url := fun l => match l with 1%nat => "north"%string | _ => "south"%string end;
     get_append := fun l => bool_decide (l = 2%nat);
     get_noenter := fun l => bool_decide (l = 2%nat);
     find_textofs_by_pos := fun p => Z.to_N (qx p);
     get_text_ofs_max := 1000%N;
     mapFromGlobalCursor := mkQPoint 5 5 |}.

Definition at_link1 : QPoint := mkQPoint 10 10.
Definition at_link2 : QPoint := mkQPoint 20 20.
Definition at_picture : QPoint := mkQPoint 30 30.
Definition at_dead_link : QPoint := mkQPoint 40 40.
Definition at_nothing : QPoint := mkQPoint 50 50.

(** ** Two recorded runs on the demo layout *)

(** Hover link 1, press, drag off to an empty place, press a second button
    while the first is still held. *)
Definition drag_off_then_press : list (Env * Event) :=
  let env := demo_env true true in
  [ (env, MouseMove at_link1 0);
    (env, MousePress at_link1 LeftButton);
    (env, MouseMove at_nothing LeftButton);
    (env, MousePress at_nothing (Z.lor LeftButton RightButton)) ].

(** Hover link 1, then leave the widget. *)
Definition hover_then_leave : list (Env * Event) :=
  let env := demo_env true true in
  [ (env, MouseMove at_link1 0); (env, Leave) ].

(** Press on an empty place, then a move that reports no button held, onto
    link 1. *)
Definition press_then_free_move : list (Env * Event) :=
  let env := demo_env true true in
  [ (env, MousePress at_nothing LeftButton); (env, MouseMove at_link1 0) ].

(** Hover link 1 and press on it. *)
Definition hover_and_press (env : Env) : list (Env * Event) :=
  [ (env, MouseMove at_link1 0); (env, MousePress at_link1 LeftButton) ].

(** ** The tracking invariant

    A link whose visual mode is not none is the link in [fHoverLink]: the
    handlers only ever highlight the hovered link, and they reset it to none
    whenever [fHoverLink] is about to change. *)
Definition tracked_only (w : DisplayWidget) : Prop :=
  forall l, link_mode w l <> CHtmlDispLink_none -> fHoverLink w = Some l.

(** A drag: the moves that follow a press, each with its button mask. *)
Definition drag (env : Env) (moves : list (QPoint * Z)) (w : DisplayWidget) : DisplayWidget :=
  foldl (fun w m => mouseMoveEvent env m.1 m.2 w) w moves.

(** The command [mouseReleaseEvent] sends for a link. *)
Definition link_command (env : Env) (l : Link) : Command :=
  mkCommand (get_url env l) (String.length (get_url env l)) (get_append env l)
    (negb (get_noenter env l)).

(** The status text the comments of [updateLinkTracking] describe for a
    display object: its ALT text if it has one, else the target of a
    clickable link, else nothing. *)
Definition status_by_precedence (env : Env) (disp : Disp) (link : option Link) : string :=
  match alt_text env disp with
  | Some t => t
  | None =>
      match link with
      | Some l => if is_clickable_link env l then get_url env l else EmptyString
      | None => EmptyString
      end
  end.

(** Whether an event is a release of a mouse button. *)
Definition is_release (e : Event) : bool :=
  match e with
  | MouseRelease => true
  | _ => false
  end.

(** * Qt-specific OS functions (src/osqt.cc)

    C strings are the bytes before the terminator. *)

Abbreviation cstring := (list ascii).

(** ** [os_get_sys_clock_ms] (osqt.cc, lines 1200-1222)

    The two function-local statics are the state; [elapsed] is what
    [zeroPoint.elapsed()] returns at the call.  [bits] is the width of
    [long]: [wraps * 86400000L] and the sum are computed in
    [unsigned long] and the result is returned as a [long]. *)

Definition wrap_unsigned (bits x : Z) : Z := x mod 2 ^ bits.

Definition to_signed (bits x : Z) : Z :=
  if x <? 2 ^ (bits - 1) then x else x - 2 ^ bits.

Record SysClock := mkSysClock { lastRet : Z; wraps : Z }.

Definition sysClock_initial : SysClock := mkSysClock (-1) 0.

Definition msPerDay : Z := 86400000.

Definition os_get_sys_clock_ms (bits elapsed : Z) (st : SysClock) : Z * SysClock :=
  let ret := elapsed in
  let wraps' := if ret <? lastRet st then wrap_unsigned bits (wraps st + 1) else wraps st in
  (to_signed bits (wrap_unsigned bits (ret + wraps' * msPerDay)), mkSysClock ret wraps').

(** Successive calls, one per raw reading, and what they return. *)
Fixpoint clock_readings (bits : Z) (readings : list Z) (st : SysClock) : list Z :=
  match readings with
  | [] => []
  | r :: rs =>
      let '(out, st') := os_get_sys_clock_ms bits r st in
      out :: clock_readings bits rs st'
  end.

(** ** [osfdup] (lines 98-131)

    The part before the handle is duplicated: [None] when the function
    returns 0, otherwise the translated mode it builds in [realmode] and the
    mode string it hands to [fdopen], which is the caller's [mode]. *)

Definition osfdup_flags : cstring := ["r"; "w"; "+"; "b"; "s"; "t"]%char.

Definition osfdup (mode : cstring) : option (cstring * cstring) :=
  if forallb (fun m => bool_decide (m ∈ osfdup_flags)) mode then
    let m0 := mode !! 0%nat in
    let m1 := mode !! 1%nat in
    if (bool_decide (m0 = Some "r"%char) || bool_decide (m0 = Some "w"%char))
       && bool_decide (m1 = Some "+"%char)
    then Some (["r"; "+"]%char, mode)
    else if bool_decide (m0 = Some "r"%char) then Some (["r"]%char, mode)
    else if bool_decide (m0 = Some "w"%char) then Some (["w"]%char, mode)
    else None
  else None.

(** ** [os_get_abs_filename] (lines 736-748)

    [qstrcpy] copies without a bound: the copy of a string that does not fit
    the buffer with its terminator runs past the end of the buffer. *)

Inductive BufWrite :=
  | Written (s : cstring)
  | Overrun.

Definition qstrcpy (size : nat) (src : cstring) : BufWrite :=
  if (length src <? size)%nat then Written src else Overrun.

(** [absoluteFilePath] stands for
    [QFileInfo(QString::fromLocal8Bit(filename)).absoluteFilePath().toLocal8Bit()]. *)
Definition os_get_abs_filename (absoluteFilePath : cstring -> cstring)
    (result_buf_size : nat) (filename : cstring) : bool * BufWrite :=
  let data := absoluteFilePath filename in
  if (result_buf_size <=? length data)%nat then (false, qstrcpy result_buf_size filename)
  else (true, qstrcpy result_buf_size data).

(** ** [os_is_file_in_dir] (lines 783-883) *)

Definition is_sep (c : ascii) : bool :=
  bool_decide (c = "\"%char) || bool_decide (c = "/"%char).

Definition sep_at (s : cstring) (i : nat) : bool :=
  match s !! i with
  | Some c => is_sep c
  | None => false
  end.

(** The final loop: stop at the terminator or at the first separator, and
    report whether it was the terminator. *)
Fixpoint no_more_sep (s : cstring) : bool :=
  match s with
  | [] => true
  | c :: s' => if is_sep c then false else no_more_sep s'
  end.

(** The length of the path once a trailing separator is ignored. *)
Definition path_len (path : cstring) : nat :=
  let plen := length path in
  if (0 <? plen)%nat && sep_at path (plen - 1) then (plen - 1)%nat else plen.

(** [memicmp(filename, path, plen) == 0]; [memicmp] is not part of osqt.cc,
    it is taken to compare the bytes after a case folding [fold_case]. *)
Definition memicmp_eq (fold_case : ascii -> ascii) (a b : cstring) (n : nat) : bool :=
  bool_decide (fold_case <$> take n a = fold_case <$> take n b).

(** [canon] stands for the first half of the function, which is left to Qt:
    make the name absolute if it is not, copy it and canonicalize it.  The
    parameter [match_self] is never read. *)
Definition os_is_file_in_dir (fold_case : ascii -> ascii) (canon : cstring -> cstring)
    (filename path : cstring) (include_subdirs match_self : bool) : bool :=
  let filename := canon filename in
  let path := canon path in
  let flen := length filename in
  let plen := path_len path in
  if (flen <? plen + 2)%nat || negb (memicmp_eq fold_case filename path plen) then false
  else if negb (sep_at filename plen) then false
  else if include_subdirs then true
  else no_more_sep (drop (plen + 1) filename).

(** ** [os_input_dialog] (lines 1099-1176)

    The values of [icon_id] and [standard_button_set] come from a header
    outside osqt.cc and are kept symbolic. *)

Inductive IconId :=
  | OS_INDLG_ICON_NONE
  | OS_INDLG_ICON_WARNING
  | OS_INDLG_ICON_INFO
  | OS_INDLG_ICON_QUESTION
  | OS_INDLG_ICON_ERROR.

Inductive MessageBoxIcon := NoIcon | Warning | Information | Question | Critical.

(** [standard_button_set]: 0 (the caller's own buttons), one of the four
    standard sets, or any other value. *)
Inductive ButtonSet :=
  | OwnButtons
  | OS_INDLG_OK
  | OS_INDLG_OKCANCEL
  | OS_INDLG_YESNO
  | OS_INDLG_YESNOCANCEL
  | OtherButtonSet.

Inductive DialogButton :=
  | ButtonOk
  | ButtonCancel
  | ButtonYes
  | ButtonNo
  | ButtonText (text : string).

Record MessageBox := mkMessageBox {
  mb_text : string;
  mb_icon : MessageBoxIcon;
  mb_buttons : list DialogButton;
  mb_default : option nat;
  mb_escape : option nat;
  mb_title : string }.

(** [buttonList[i]]: defined only inside the list. *)
Definition button_index (buttonList : list DialogButton) (i : Z) : option nat :=
  if (0 <=? i) && (i <? Z.of_nat (length buttonList)) then Some (Z.to_nat i) else None.

(** [decode] is the conversion of the game's text (UTF-8 for TADS 3, the
    configured codec for TADS 2), [windowTitle] the title of the main
    window, [clicked] the position of the button [dialog.clickedButton()]
    returns among the buttons of the dialog, if any.  The result is [None]
    when [buttonList] is indexed outside its bounds. *)
Definition os_input_dialog (decode : string -> string) (windowTitle : string)
    (icon_id : IconId) (prompt : string) (standard_button_set : ButtonSet)
    (buttons : list string) (default_index cancel_index : Z) (clicked : option nat)
  : option (MessageBox * Z) :=
  let icon := match icon_id with
              | OS_INDLG_ICON_NONE => NoIcon
              | OS_INDLG_ICON_WARNING => Warning
              | OS_INDLG_ICON_INFO => Information
              | OS_INDLG_ICON_QUESTION => Question
              | OS_INDLG_ICON_ERROR => Critical
              end in
  let buttonList := match standard_button_set with
                    | OwnButtons => (fun b => ButtonText (decode b)) <$> buttons
                    | OS_INDLG_OK => [ButtonOk]
                    | OS_INDLG_OKCANCEL => [ButtonOk; ButtonCancel]
                    | OS_INDLG_YESNO => [ButtonYes; ButtonNo]
                    | OS_INDLG_YESNOCANCEL => [ButtonYes; ButtonNo; ButtonCancel]
                    | OtherButtonSet => []
                    end in
  dflt ← (if default_index =? 0 then Some None
          else Some <$> button_index buttonList (default_index - 1));
  esc ← (if cancel_index =? 0 then Some None
         else Some <$> button_index buttonList (default_index - 1));
  let dialog := mkMessageBox (decode prompt) icon buttonList dflt esc
                  (windowTitle +:+ " ") in
  let result := match clicked with
                | None => cancel_index
                | Some i => if (i <? length buttonList)%nat then Z.of_nat i + 1 else 0
                end in
  Some (dialog, result).

(** ** [osfacc] and [os_file_stat] (lines 169-260, the branch for systems
    other than Windows)

    What [stat], [lstat] and [QFileInfo] report is taken as given; so are
    the three attribute bits, whose values come from a header outside
    osqt.cc. *)

Record StatBuf := mkStatBuf {
  st_size : Z;
  st_ctime : Z;
  st_mtime : Z;
  st_atime : Z;
  st_mode : Z }.

Record FileStat := mkFileStat {
  sizelo : Z;
  sizehi : Z;
  cre_time : Z;
  mod_time : Z;
  acc_time : Z;
  s_mode : Z;
  attrs : Z }.

Record QFileInfo := mkQFileInfo {
  fi_exists : bool;
  fi_isSymLink : bool;
  fi_symLinkTarget : cstring;
  fi_isHidden : bool;
  fi_isReadable : bool;
  fi_isWritable : bool }.

Record FileSystem := mkFileSystem {
  fs_stat : cstring -> option StatBuf;
  fs_lstat : cstring -> option StatBuf;
  fs_info : cstring -> QFileInfo;
  OSFATTR_HIDDEN : Z;
  OSFATTR_READ : Z;
  OSFATTR_WRITE : Z }.

Definition uint32 (x : Z) : Z := x mod 2 ^ 32.

Definition osfacc (fs : FileSystem) (fname : cstring) : Z :=
  let info := fs_info fs fname in
  if negb (fi_exists info) && negb (fi_isSymLink info) then 1 else 0.

(** The attribute bits, set from the [QFileInfo] that is current at the end. *)
Definition set_attrs (fs : FileSystem) (inf : QFileInfo) (s : FileStat) : FileStat :=
  let a0 := attrs s in
  let a1 := if fi_isHidden inf then Z.lor a0 (OSFATTR_HIDDEN fs) else a0 in
  let a2 := if fi_isReadable inf then Z.lor a1 (OSFATTR_READ fs) else a1 in
  let a3 := if fi_isWritable inf then Z.lor a2 (OSFATTR_WRITE fs) else a2 in
  mkFileStat (sizelo s) (sizehi s) (cre_time s) (mod_time s) (acc_time s) (s_mode s) a3.

(** [big_off] says whether [sizeof(buf.st_size) > 4]; [s] is what the
    caller's structure held before the call.  The result is the value
    returned and the structure after the call. *)
Definition os_file_stat (fs : FileSystem) (big_off : bool) (fname : cstring)
    (follow_links : bool) (s : FileStat) : bool * FileStat :=
  match (if follow_links then fs_stat fs fname else fs_lstat fs fname) with
  | None => (false, s)
  | Some buf =>
      let s1 := mkFileStat
                  (uint32 (Z.land (st_size buf) 0xFFFFFFFF))
                  (if big_off
                   then uint32 (Z.land (Z.shiftr (st_size buf) 32) 0xFFFFFFFF)
                   else 0)
                  (st_ctime buf) (st_mtime buf) (st_atime buf) (st_mode buf) 0 in
      if negb (osfacc fs fname =? 0) then (false, s1)
      else
        let inf := fs_info fs fname in
        let isLink := fi_isSymLink inf in
        if follow_links && isLink then
          if bool_decide (fi_symLinkTarget inf = []) then (false, s1)
          else (true, set_attrs fs (fs_info fs (fi_symLinkTarget inf)) s1)
        else (true, set_attrs fs inf s1)
  end.

(** ** [os_get_root_dirs] (lines 281-303)

    [drives] are the Latin-1 paths of [QDir::drives()]; [buf] is the
    caller's buffer, if it is not null, with the bytes it held. *)

Definition NUL : ascii := "000"%char.

Definition root_dirs_string (drives : list cstring) : list ascii :=
  foldl (fun str path => str ++ path ++ [NUL]) [] drives ++ [NUL].

Definition os_get_root_dirs (drives : list cstring) (buf : option (list ascii))
    (buflen : nat) : option (list ascii) * nat :=
  if (length drives =? 0)%nat then (buf, 0%nat)
  else
    let str := root_dirs_string drives in
    let buf' := match buf with
                | Some old =>
                    if (length str <=? buflen)%nat
                    then Some (str ++ drop (length str) old)
                    else Some old
                | None => None
                end in
    (buf', length str).

(** ** Proof automation *)

(** Evaluate the handlers and the primitive writes down to record
    constructors, innermost write first, leaving the link table alone. *)
Ltac unfold_writes :=
  cbv [clearMessage unsetCursor showMessage setCursor set_sel_range processCommand
       set_clicked set_fHoverLink set_fClickedLink set_fInSelectMode set_fSelectOrigin
       fHoverLink fClickedLink fInSelectMode fSelectOrigin clicked_ set_clicked_calls
       cursor statusMessage sel_range_calls commands andb orb negb] in *.

Ltac unfold_handlers :=
  cbv [handleEvent leaveEvent mouseMoveEvent mousePressEvent mouseReleaseEvent
       updateLinkTracking trackNewLink showFeedback fInvalidateLinkTracking forgetTracking
       clickable] in *;
  unfold_writes.

(** Reduce field reads and boolean tests. *)
Ltac proj :=
  cbn [fHoverLink fClickedLink fInSelectMode fSelectOrigin clicked_ set_clicked_calls
       cursor statusMessage sel_range_calls commands andb orb negb fst snd
       from_option id] in *.

(** Settle the tests on pointers whose outcome is known. *)
Ltac settle_tests :=
  rewrite ?bool_decide_eq_true_2 by done; rewrite ?bool_decide_eq_false_2 by done;
  rewrite ?decide_True by done; rewrite ?decide_False by done;
  unfold_writes.

(** Read link modes through the inserts left by [set_clicked]. *)
Ltac read_modes :=
  unfold link_mode in *; unfold_writes; proj;
  repeat (rewrite lookup_insert in * );
  repeat case_decide; simplify_eq; proj; try done.

(** ** Reading back the primitive writes *)

Lemma link_mode_set_clicked l m w l' :
  link_mode (set_clicked l m w) l' = if decide (l = l') then m else link_mode w l'.
Proof.
  unfold link_mode, set_clicked; simpl.
  rewrite lookup_insert. by case_decide.
Qed.

Lemma reachable_run tr w : reachable w -> reachable (run tr w).
Proof.
  revert w. induction tr as [|[env e] tr IH]; intros w Hw; simpl; [done|].
  apply IH. by constructor.
Qed.

(** ** [updateLinkTracking] case by case *)

Lemma updateLinkTracking_no_disp env pos w :
  find_by_pos env (docPos env pos) = None ->
  updateLinkTracking env pos w =
    match fHoverLink w with
    | Some h =>
        clearMessage (unsetCursor (set_fHoverLink None (set_clicked h CHtmlDispLink_none w)))
    | None => w
    end.
Proof. intros Hd. unfold updateLinkTracking. by rewrite Hd. Qed.

Lemma updateLinkTracking_links_off env pos d w :
  find_by_pos env (docPos env pos) = Some d ->
  enableLinks env = false ->
  updateLinkTracking env pos w = forgetTracking w.
Proof. intros Hd Hen. unfold updateLinkTracking. by rewrite Hd, Hen. Qed.

Lemma updateLinkTracking_same_link env pos d w :
  find_by_pos env (docPos env pos) = Some d ->
  enableLinks env = true ->
  link_at env pos = fHoverLink w ->
  updateLinkTracking env pos w = w.
Proof.
  intros Hd Hen Hl. unfold link_at in Hl. rewrite Hd in Hl.
  unfold updateLinkTracking. rewrite Hd, Hen. cbv zeta. by rewrite decide_True.
Qed.

Lemma updateLinkTracking_new_link env pos d w :
  find_by_pos env (docPos env pos) = Some d ->
  enableLinks env = true ->
  link_at env pos <> fHoverLink w ->
  updateLinkTracking env pos w =
    showFeedback env d (link_at env pos) (trackNewLink env (link_at env pos) w).
Proof.
  intros Hd Hen Hl. unfold link_at in *. rewrite Hd in *.
  unfold updateLinkTracking. rewrite Hd, Hen. cbv zeta. by rewrite decide_False.
Qed.

Lemma trackNewLink_hover env link w : fHoverLink (trackNewLink env link w) = link.
Proof.
  unfold trackNewLink. cbv zeta.
  destruct link as [l|]; [|done].
  destruct (is_clickable_link env l); [|done].
  by destruct (highlightLinks env && _).
Qed.

Lemma forgetTracking_twice w : forgetTracking (forgetTracking w) = forgetTracking w.
Proof.
  destruct w as [h c sel org modes calls cur st selc cmds].
  unfold forgetTracking. unfold_writes. by destruct h.
Qed.

Lemma forgetTracking_hover w : fHoverLink (forgetTracking w) = None.
Proof.
  destruct w as [h c sel org modes calls cur st selc cmds].
  unfold forgetTracking. unfold_writes. by destruct h.
Qed.

(** [updateLinkTracking] never touches the selection state, the armed
    pointer, the selection range or the command queue. *)
Lemma updateLinkTracking_frame env pos w :
  let w' := updateLinkTracking env pos w in
  fInSelectMode w' = fInSelectMode w /\ fSelectOrigin w' = fSelectOrigin w /\
  fClickedLink w' = fClickedLink w /\ sel_range_calls w' = sel_range_calls w /\
  commands w' = commands w.
Proof.
  destruct w as [h c sel org modes calls cur st selc cmds].
  destruct (find_by_pos env (docPos env pos)) as [d|] eqn:Hd.
  2:{ cbv zeta. rewrite updateLinkTracking_no_disp by done. by destruct h. }
  destruct (enableLinks env) eqn:Hen.
  2:{ cbv zeta. rewrite (updateLinkTracking_links_off env pos d) by done.
      unfold forgetTracking. by destruct h. }
  destruct (decide (link_at env pos = h)) as [E|E].
  { cbv zeta. by rewrite (updateLinkTracking_same_link env pos d). }
  cbv zeta. rewrite (updateLinkTracking_new_link env pos d) by done.
  unfold showFeedback, trackNewLink, forgetTracking.
  destruct (link_at env pos) as [l|]; [destruct (is_clickable_link env l)|];
    destruct (alt_text env d), h as [h|], (highlightLinks env), c as [c|];
    unfold_writes; rewrite ?bool_decide_eq_true_2 by done;
    rewrite ?bool_decide_eq_false_2 by done; done.
Qed.

(** Split on the four ways through [updateLinkTracking]. *)
Ltac tracking_cases env pos w d :=
  let Hd := fresh "Hd" in
  let Hen := fresh "Hen" in
  let E := fresh "E" in
  destruct (find_by_pos env (docPos env pos)) as [d|] eqn:Hd;
  [ destruct (enableLinks env) eqn:Hen;
    [ destruct (decide (link_at env pos = fHoverLink w)) as [E|E];
      [ rewrite (updateLinkTracking_same_link env pos d w Hd Hen E)
      | rewrite (updateLinkTracking_new_link env pos d w Hd Hen E) ]
    | rewrite (updateLinkTracking_links_off env pos d w Hd Hen) ]
  | rewrite (updateLinkTracking_no_disp env pos w Hd) ].

(** After [updateLinkTracking] the hovered link is the one the layout
    reports under the mouse, or there is none. *)
Lemma updateLinkTracking_hover env pos w :
  let w' := updateLinkTracking env pos w in
  fHoverLink w' = None \/ fHoverLink w' = link_at env pos.
Proof.
  cbv zeta. tracking_cases env pos w d.
  - by right.
  - unfold showFeedback.
    destruct (alt_text env d);
      [|destruct (link_at env pos) as [l|]; [destruct (is_clickable_link env l)|]];
      first [ left; apply forgetTracking_hover | right; apply trackNewLink_hover ].
  - left. apply forgetTracking_hover.
  - left. by destruct w as [[h|] c sel org modes calls cur st selc cmds].
Qed.

(** A link that is not under the mouse keeps its mode or is reset. *)
Lemma updateLinkTracking_other_modes env pos w l :
  link_at env pos <> Some l ->
  let w' := updateLinkTracking env pos w in
  link_mode w' l = link_mode w l \/ link_mode w' l = CHtmlDispLink_none.
Proof.
  intros Hl. cbv zeta.
  destruct w as [h c sel org modes calls cur st selc cmds].
  tracking_cases env pos
    (mkDisplayWidget h c sel org modes calls cur st selc cmds) d.
  - by left.
  - unfold showFeedback, trackNewLink, forgetTracking.
    destruct (link_at env pos) as [l0|]; [destruct (is_clickable_link env l0)|];
      destruct (alt_text env d), h as [h|], c as [c|], (highlightLinks env);
      unfold_writes; settle_tests; read_modes; auto.
  - unfold forgetTracking. destruct h as [h|]; unfold_writes; read_modes; auto.
  - destruct h as [h|]; unfold_writes; read_modes; auto.
Qed.

(** The link hovered so far is reset once the mouse is no longer on it. *)
Lemma updateLinkTracking_leaves_link env pos w l :
  fHoverLink w = Some l ->
  link_at env pos <> Some l ->
  link_mode (updateLinkTracking env pos w) l = CHtmlDispLink_none.
Proof.
  destruct w as [h c sel org modes calls cur st selc cmds]; proj.
  intros -> Hl.
  tracking_cases env pos
    (mkDisplayWidget (Some l) c sel org modes calls cur st selc cmds) d.
  - done.
  - unfold showFeedback, trackNewLink, forgetTracking.
    destruct (link_at env pos) as [l0|]; [destruct (is_clickable_link env l0)|];
      destruct (alt_text env d), c as [c|], (highlightLinks env);
      unfold_writes; settle_tests; read_modes.
  - unfold forgetTracking. unfold_writes. read_modes.
  - unfold_writes. read_modes.
Qed.

(** ** The tracking invariant holds in every reachable state *)

Lemma tracked_only_initial : tracked_only initial.
Proof. intros l. unfold link_mode; simpl. by rewrite lookup_empty. Qed.

Lemma tracked_only_invalidate w :
  tracked_only w -> forall l, link_mode (fInvalidateLinkTracking w) l = CHtmlDispLink_none.
Proof.
  intros Hinv l. specialize (Hinv l).
  destruct w as [h c sel org modes calls cur st selc cmds].
  unfold_handlers.
  destruct c as [c|], h as [h|]; unfold_writes; read_modes;
    destruct (decide (default CHtmlDispLink_none (modes !! l) = CHtmlDispLink_none))
      as [E|E]; try done; specialize (Hinv E); by simplify_eq.
Qed.

(** Once the hovered link is reset, no link is highlighted. *)
Lemma tracked_only_reset h w :
  tracked_only w -> fHoverLink w = Some h ->
  forall l, link_mode (set_clicked h CHtmlDispLink_none w) l = CHtmlDispLink_none.
Proof.
  intros Hinv Hh l. rewrite link_mode_set_clicked. case_decide; [done|].
  destruct (decide (link_mode w l = CHtmlDispLink_none)) as [|Hl]; [done|].
  apply Hinv in Hl. congruence.
Qed.

Lemma tracked_only_unhovered w :
  tracked_only w -> fHoverLink w = None ->
  forall l, link_mode w l = CHtmlDispLink_none.
Proof.
  intros Hinv Hh l.
  destruct (decide (link_mode w l = CHtmlDispLink_none)) as [|Hl]; [done|].
  apply Hinv in Hl. congruence.
Qed.

Lemma tracked_only_forgetTracking w :
  tracked_only w -> forall l, link_mode (forgetTracking w) l = CHtmlDispLink_none.
Proof.
  intros Hinv l.
  destruct w as [[h|] c sel org modes calls cur st selc cmds].
  - exact (tracked_only_reset h _ Hinv eq_refl l).
  - exact (tracked_only_unhovered _ Hinv eq_refl l).
Qed.

Lemma tracked_only_trackNewLink env link w :
  tracked_only w -> tracked_only (trackNewLink env link w).
Proof.
  intros Hinv l.
  assert (Hreset : link_mode
            match fHoverLink w with
            | Some h => set_clicked h CHtmlDispLink_none w
            | None => w
            end l = CHtmlDispLink_none).
  { destruct (fHoverLink w) as [h|] eqn:Hh.
    - by apply tracked_only_reset.
    - by apply tracked_only_unhovered. }
  destruct w as [h c sel org modes calls cur st selc cmds].
  unfold trackNewLink.
  destruct link as [l0|]; [destruct (is_clickable_link env l0)|];
    destruct h as [h|], c as [c|], (highlightLinks env);
    unfold_writes; settle_tests; read_modes.
Qed.

Lemma tracked_only_showFeedback env d link w :
  tracked_only w -> tracked_only (showFeedback env d link w).
Proof.
  intros Hinv l. unfold showFeedback.
  assert (Hforget : link_mode (forgetTracking w) l <> CHtmlDispLink_none ->
                    fHoverLink (forgetTracking w) = Some l).
  { intros Hl. by rewrite tracked_only_forgetTracking in Hl. }
  destruct (alt_text env d); [apply (Hinv l)|].
  destruct link as [l0|]; [|done].
  destruct (is_clickable_link env l0); [apply (Hinv l)|done].
Qed.

Lemma tracked_only_updateLinkTracking env pos w :
  tracked_only w -> tracked_only (updateLinkTracking env pos w).
Proof.
  intros Hinv.
  destruct (find_by_pos env (docPos env pos)) as [d|] eqn:Hd.
  2:{ rewrite updateLinkTracking_no_disp by done.
      destruct (fHoverLink w) as [h|] eqn:Hh; [|done].
      intros l Hl. exfalso. apply Hl. exact (tracked_only_reset h w Hinv Hh l). }
  destruct (enableLinks env) eqn:Hen.
  2:{ rewrite (updateLinkTracking_links_off env pos d) by done.
      intros l Hl. by rewrite tracked_only_forgetTracking in Hl. }
  destruct (decide (link_at env pos = fHoverLink w)) as [E|E].
  - by rewrite (updateLinkTracking_same_link env pos d).
  - rewrite (updateLinkTracking_new_link env pos d) by done.
    by apply tracked_only_showFeedback, tracked_only_trackNewLink.
Qed.

Lemma tracked_only_mousePressEvent env pos b w :
  tracked_only w -> tracked_only (mousePressEvent env pos b w).
Proof.
  intros Hinv l. specialize (Hinv l).
  destruct w as [h c sel org modes calls cur st selc cmds].
  unfold_handlers.
  repeat (case_match; proj; try done); unfold_writes; read_modes.
Qed.

Lemma tracked_only_mouseReleaseEvent env w :
  tracked_only w -> tracked_only (mouseReleaseEvent env w).
Proof.
  intros Hinv l. specialize (Hinv l).
  destruct w as [h c sel org modes calls cur st selc cmds].
  unfold_handlers.
  repeat (case_match; proj; try done); unfold_writes; read_modes.
Qed.

Lemma tracked_only_handleEvent env e w :
  tracked_only w -> tracked_only (handleEvent env e w).
Proof.
  intros Hinv. destruct e as [pos b| |pos b|]; unfold handleEvent.
  - unfold mouseMoveEvent. case_match.
    + intros l. apply (Hinv l).
    + by apply tracked_only_updateLinkTracking.
  - intros l Hl. unfold leaveEvent in Hl.
    by rewrite (tracked_only_invalidate w Hinv l) in Hl.
  - by apply tracked_only_mousePressEvent.
  - by apply tracked_only_mouseReleaseEvent.
Qed.

Lemma reachable_tracked_only w : reachable w -> tracked_only w.
Proof.
  induction 1 as [|env e w _ IH]; [apply tracked_only_initial|].
  by apply tracked_only_handleEvent.
Qed.

(** ** Highlighting is unique *)

(** C2: in every state reachable from the initial state by pointer events,
    at most one link is in mode clicked, at most one link is in mode hover,
    and no link is in mode clicked while a link is in mode hover; so one
    link identity is never in both modes, and the exception the claim allows
    is not needed. *)
Theorem at_most_one_highlighted w :
  reachable w ->
  (forall l1 l2, link_mode w l1 = CHtmlDispLink_clicked ->
                 link_mode w l2 = CHtmlDispLink_clicked -> l1 = l2) /\
  (forall l1 l2, link_mode w l1 = CHtmlDispLink_hover ->
                 link_mode w l2 = CHtmlDispLink_hover -> l1 = l2) /\
  (forall l1 l2, link_mode w l1 = CHtmlDispLink_clicked ->
                 link_mode w l2 = CHtmlDispLink_hover -> False).
Proof.
  intros Hw. pose proof (reachable_tracked_only w Hw) as Hinv.
  assert (Hsame : forall l1 l2, link_mode w l1 <> CHtmlDispLink_none ->
                                link_mode w l2 <> CHtmlDispLink_none -> l1 = l2).
  { intros l1 l2 H1 H2. apply Hinv in H1. apply Hinv in H2. congruence. }
  repeat split.
  - intros l1 l2 H1 H2. apply Hsame; congruence.
  - intros l1 l2 H1 H2. apply Hsame; congruence.
  - intros l1 l2 H1 H2.
    assert (l1 = l2) by (apply Hsame; congruence). congruence.
Qed.

Lemma at_most_one_highlighted_witness :
  let w := run (hover_and_press (demo_env true true)) initial in
  reachable w /\
  ((forall l1 l2, link_mode w l1 = CHtmlDispLink_clicked ->
                  link_mode w l2 = CHtmlDispLink_clicked -> l1 = l2) /\
   (forall l1 l2, link_mode w l1 = CHtmlDispLink_hover ->
                  link_mode w l2 = CHtmlDispLink_hover -> l1 = l2) /\
   (forall l1 l2, link_mode w l1 = CHtmlDispLink_clicked ->
                  link_mode w l2 = CHtmlDispLink_hover -> False)).
Proof.
  intros w.
  assert (Hw : reachable w).
  { exact (reach_step _ _ _ (reach_step _ _ _ reach_init)). }
  split; [exact Hw | exact (at_most_one_highlighted w Hw)].
Defined.

(** ** Releasing on the armed link *)

(** What [mouseReleaseEvent] does when the armed link is the hovered link
    and the widget is not selecting: the link's command is sent once, the
    armed pointer is reset, and the link goes to mode hover if links are to
    be highlighted; otherwise [set_clicked] is not called and the link keeps
    the mode it had. *)
Lemma release_on_armed_link env l w :
  fInSelectMode w = false ->
  fClickedLink w = Some l ->
  fHoverLink w = Some l ->
  let w' := mouseReleaseEvent env w in
  commands w' = commands w ++ [link_command env l] /\
  fClickedLink w' = None /\
  fHoverLink w' = Some l /\
  (highlightLinks env = true -> link_mode w' l = CHtmlDispLink_hover) /\
  (highlightLinks env = false ->
     clicked_ w' = clicked_ w /\ set_clicked_calls w' = set_clicked_calls w).
Proof.
  intros Hsel Hc Hh.
  destruct w as [h c sel org modes calls cur st selc cmds]; proj; subst.
  unfold_handlers.
  rewrite decide_True by done.
  destruct (highlightLinks env); unfold_writes; repeat split; try done.
  intros _. read_modes.
Qed.

(** C1: with link highlighting switched off, hovering link 1, pressing and
    releasing on it sends the command "north" once with the link's flags and
    resets the armed pointer, but the link is left in mode clicked: the
    release does not put it back to none. *)
Theorem release_without_highlight_leaves_clicked :
  let env := demo_env true false in
  let w := run (hover_and_press env) initial in
  let w' := mouseReleaseEvent env w in
  (fInSelectMode w = false /\ fClickedLink w = Some 1%nat /\ fHoverLink w = Some 1%nat) /\
  commands w' = [mkCommand "north" 5 false true] /\
  fClickedLink w' = None /\
  link_mode w' 1%nat = CHtmlDispLink_clicked.
Proof. vm_compute. repeat split. Qed.

(** ** ALT text *)

(** When links are followed and the link found under the mouse differs from
    [fHoverLink], the status bar gets the ALT text first, else the target of
    a clickable link, else it is cleared; in the last case the cursor is
    reset and nothing is tracked any more. *)
Lemma updateLinkTracking_feedback env pos disp w :
  enableLinks env = true ->
  find_by_pos env (docPos env pos) = Some disp ->
  link_at env pos <> fHoverLink w ->
  let w' := updateLinkTracking env pos w in
  statusMessage w' = status_by_precedence env disp (link_at env pos) /\
  (alt_text env disp = None -> clickable env (link_at env pos) = false ->
     cursor w' = DefaultCursor /\ fHoverLink w' = None).
Proof.
  intros Hen Hd Hne. unfold link_at in *. rewrite Hd in Hne.
  destruct w as [h c sel org modes calls cur st selc cmds]; proj.
  unfold updateLinkTracking, trackNewLink, showFeedback, status_by_precedence, link_at,
    forgetTracking, clickable.
  rewrite Hd, Hen; simpl. rewrite decide_False by done.
  repeat (case_match; proj; try done); unfold_writes; try done.
Qed.

(** C3: with links followed and nothing tracked, moving onto the picture at
    (30,30), which has the ALT text "map" and no link, leaves the status bar
    empty: the link found (none) equals [fHoverLink] (none) and the function
    returns before the ALT text is looked at.  Coming from link 1 instead,
    the ALT text is shown but the cursor stays a pointing hand. *)
Theorem alt_text_without_link_not_shown :
  let env := demo_env true true in
  (find_by_pos env at_picture = Some 3%nat /\ alt_text env 3%nat = Some "map"%string /\
   link_at env at_picture = None) /\
  statusMessage (mouseMoveEvent env at_picture 0 initial) = EmptyString /\
  (let w := run [(env, MouseMove at_link1 0); (env, MouseMove at_picture 0)] initial in
   statusMessage w = "map"%string /\ cursor w = PointingHandCursor).
Proof. vm_compute. repeat split. Qed.

(** ** Selecting text *)

(** While selecting, a move with the left button down only pushes a new
    selection range built from the origin and the mouse position. *)
Lemma selecting_move env p b w :
  fInSelectMode w = true -> leftDown b = true ->
  mouseMoveEvent env p b w =
    set_sel_range (find_textofs_by_pos env (fSelectOrigin w)) (find_textofs_by_pos env p) w.
Proof. intros Hs Hb. unfold mouseMoveEvent. by rewrite Hs, Hb. Qed.

Lemma selecting_drag env moves w :
  fInSelectMode w = true ->
  Forall (fun m => leftDown m.2 = true) moves ->
  let w' := drag env moves w in
  fInSelectMode w' = true /\ fSelectOrigin w' = fSelectOrigin w /\
  sel_range_calls w' =
    sel_range_calls w ++
      map (fun m => (find_textofs_by_pos env (fSelectOrigin w), find_textofs_by_pos env m.1)) moves /\
  commands w' = commands w /\ fHoverLink w' = fHoverLink w /\
  fClickedLink w' = fClickedLink w /\ clicked_ w' = clicked_ w /\
  set_clicked_calls w' = set_clicked_calls w.
Proof.
  intros Hs Hall. revert w Hs.
  induction Hall as [|[p b] moves Hb _ IH]; intros w Hs; simpl.
  - by rewrite app_nil_r.
  - unfold drag; simpl. rewrite selecting_move by done.
    specialize (IH (set_sel_range (find_textofs_by_pos env (fSelectOrigin w))
                      (find_textofs_by_pos env p) w) Hs).
    destruct IH as (H1 & H2 & H3 & H4 & H5 & H6 & H7 & H8).
    unfold drag in *. rewrite H1, H2, H3, H4, H5, H6, H7, H8; simpl.
    by rewrite <- app_assoc.
Qed.

(** C4: a press with the left button down while no link is hovered and the
    widget is not selecting switches selection mode on, records the press
    position as origin and pushes the range (max offset, max offset); every
    following move with the button down pushes (offset of the origin, offset
    of the mouse position) and nothing else; the release switches selection
    mode off and sends no command. *)
Theorem selection_gesture env pos buttons moves w :
  fHoverLink w = None ->
  fInSelectMode w = false ->
  leftDown buttons = true ->
  Forall (fun m => leftDown m.2 = true) moves ->
  let w1 := mousePressEvent env pos buttons w in
  let w2 := drag env moves w1 in
  let w3 := mouseReleaseEvent env w2 in
  (fInSelectMode w1 = true /\ fSelectOrigin w1 = pos /\
   sel_range_calls w1 = sel_range_calls w ++ [(get_text_ofs_max env, get_text_ofs_max env)]) /\
  (fInSelectMode w2 = true /\
   sel_range_calls w2 =
     sel_range_calls w1 ++
       map (fun m => (find_textofs_by_pos env pos, find_textofs_by_pos env m.1)) moves) /\
  (fInSelectMode w3 = false /\ commands w3 = commands w /\
   sel_range_calls w3 = sel_range_calls w2).
Proof.
  intros Hh Hs Hb Hall w1 w2 w3.
  assert (Hw1 : w1 = set_sel_range (get_text_ofs_max env) (get_text_ofs_max env)
                       (set_fSelectOrigin pos (set_fInSelectMode true w))).
  { unfold w1, mousePressEvent. by rewrite Hh, Hb, Hs. }
  assert (Hs1 : fInSelectMode w1 = true) by by rewrite Hw1.
  assert (Ho1 : fSelectOrigin w1 = pos) by by rewrite Hw1.
  destruct (selecting_drag env moves w1 Hs1 Hall) as (H1 & H2 & H3 & H4 & _).
  fold w2 in H1, H2, H3, H4. rewrite Ho1 in H3.
  assert (Hw3 : w3 = set_fInSelectMode false w2).
  { unfold w3, mouseReleaseEvent. by rewrite H1. }
  repeat split; try done.
  - by rewrite Hw1.
  - by rewrite Hw3.
  - rewrite Hw3; simpl. rewrite H4. by rewrite Hw1.
  - by rewrite Hw3.
Qed.

Lemma selection_gesture_witness :
  let env := demo_env true true in
  let moves := [(at_link1, LeftButton); (at_link2, LeftButton)] in
  let w1 := mousePressEvent env at_nothing LeftButton initial in
  let w2 := drag env moves w1 in
  let w3 := mouseReleaseEvent env w2 in
  sel_range_calls w3 = [(1000%N, 1000%N); (50%N, 10%N); (50%N, 20%N)] /\
  (fInSelectMode w1 = true /\ fSelectOrigin w1 = at_nothing /\
   sel_range_calls w1 = sel_range_calls initial ++ [(get_text_ofs_max env, get_text_ofs_max env)]) /\
  (fInSelectMode w2 = true /\
   sel_range_calls w2 =
     sel_range_calls w1 ++
       map (fun m => (find_textofs_by_pos env at_nothing, find_textofs_by_pos env m.1)) moves) /\
  (fInSelectMode w3 = false /\ commands w3 = commands initial /\
   sel_range_calls w3 = sel_range_calls w2).
Proof.
  intros env moves w1 w2 w3. split; [reflexivity|].
  apply (selection_gesture env at_nothing LeftButton moves initial);
    [reflexivity | reflexivity | reflexivity |].
  repeat constructor.
Defined.

(** ** Moving while a link is tracked *)

(** Moving to a place where the layout reports another link, or none, resets
    the link hovered so far to mode none; the armed pointer is not touched. *)
Lemma move_off_link env p b l w :
  fInSelectMode w = false ->
  fHoverLink w = Some l ->
  link_at env p <> Some l ->
  let w' := mouseMoveEvent env p b w in
  link_mode w' l = CHtmlDispLink_none /\ fHoverLink w' <> Some l /\
  fClickedLink w' = fClickedLink w /\ commands w' = commands w /\
  fInSelectMode w' = false.
Proof.
  intros Hs Hh Hne. cbv zeta. unfold mouseMoveEvent. rewrite Hs, andb_false_r.
  destruct (updateLinkTracking_frame env p w) as (Hs' & _ & Hc' & _ & Hcmd').
  repeat split; try done.
  - by apply updateLinkTracking_leaves_link.
  - destruct (updateLinkTracking_hover env p w) as [H|H]; congruence.
  - by rewrite Hs'.
Qed.

(** Moving onto a clickable link that is not the hovered one, with links
    followed: the link becomes the hovered one and the cursor a pointing
    hand; the link goes to mode hover only if highlighting is on and no link
    is armed, otherwise [set_clicked] is not called for it. *)
Lemma move_onto_clickable_link env p b l w :
  enableLinks env = true ->
  fInSelectMode w = false ->
  link_at env p = Some l ->
  is_clickable_link env l = true ->
  fHoverLink w <> Some l ->
  let w' := mouseMoveEvent env p b w in
  fHoverLink w' = Some l /\ cursor w' = PointingHandCursor /\
  fClickedLink w' = fClickedLink w /\ commands w' = commands w /\
  fInSelectMode w' = false /\
  link_mode w' l =
    (if highlightLinks env && bool_decide (fClickedLink w = None)
     then CHtmlDispLink_hover else link_mode w l) /\
  (forall l', l' <> l -> fHoverLink w <> Some l' -> link_mode w' l' = link_mode w l').
Proof.
  intros Hen Hs Hl Hc Hne.
  destruct w as [h c sel org modes calls cur st selc cmds]; proj; subst.
  unfold link_at in Hl. unfold mouseMoveEvent; proj. rewrite andb_false_r.
  unfold updateLinkTracking, trackNewLink, showFeedback, forgetTracking; proj. rewrite Hen.
  destruct (find_by_pos env (docPos env p)) as [d|]; [|done].
  rewrite Hl. rewrite decide_False by congruence. rewrite Hc.
  destruct (highlightLinks env), c as [c|], h as [h|], (alt_text env d);
    unfold_writes; repeat case_bool_decide; try done; unfold_writes;
    repeat split; try done; try (intros l' Hl' Hh'); read_modes.
Qed.

(** Releasing while the hovered link is not the armed one: nothing is sent,
    the hovered link goes to mode hover, the armed pointer is reset. *)
Lemma release_off_armed_link env c h w :
  fInSelectMode w = false ->
  fClickedLink w = Some c ->
  fHoverLink w = Some h ->
  h <> c ->
  let w' := mouseReleaseEvent env w in
  commands w' = commands w /\ fClickedLink w' = None /\ fHoverLink w' = Some h /\
  link_mode w' h = CHtmlDispLink_hover /\
  (forall l, l <> h -> link_mode w' l = link_mode w l).
Proof.
  intros Hs Hc Hh Hne.
  destruct w as [h0 c0 sel org modes calls cur st selc cmds]; proj; subst.
  unfold_handlers. rewrite decide_False by congruence.
  unfold_writes; repeat split; try done; try (intros l Hl); read_modes.
Qed.

(** A press on a hovered clickable link, with links followed, arms it. *)
Lemma press_on_clickable_link env p b l w :
  enableLinks env = true ->
  fHoverLink w = Some l ->
  is_clickable_link env l = true ->
  let w' := mousePressEvent env p b w in
  fClickedLink w' = Some l /\ fHoverLink w' = Some l /\
  link_mode w' l = CHtmlDispLink_clicked /\
  commands w' = commands w /\ fInSelectMode w' = fInSelectMode w.
Proof.
  intros Hen Hh Hc.
  destruct w as [h0 c0 sel org modes calls cur st selc cmds]; proj; subst.
  unfold mousePressEvent; proj. rewrite Hc, Hen.
  unfold_writes; repeat split; try done. read_modes.
Qed.

(** C5: press on a hovered clickable link, move to a place that is not on
    that link, move onto a second clickable link, release: no command is
    sent, the second link is in mode hover, the first in mode none, and the
    armed pointer is reset. *)
Theorem drag_to_other_link env l1 l2 p0 b0 p1 b1 p2 b2 w :
  enableLinks env = true ->
  fInSelectMode w = false ->
  fHoverLink w = Some l1 ->
  is_clickable_link env l1 = true ->
  link_at env p1 <> Some l1 ->
  link_at env p2 = Some l2 ->
  is_clickable_link env l2 = true ->
  l2 <> l1 ->
  let w1 := mousePressEvent env p0 b0 w in
  let w2 := mouseMoveEvent env p1 b1 w1 in
  let w3 := mouseMoveEvent env p2 b2 w2 in
  let w4 := mouseReleaseEvent env w3 in
  (fClickedLink w1 = Some l1 /\ link_mode w1 l1 = CHtmlDispLink_clicked) /\
  commands w4 = commands w /\
  link_mode w4 l2 = CHtmlDispLink_hover /\
  link_mode w4 l1 = CHtmlDispLink_none /\
  fHoverLink w4 = Some l2 /\
  fClickedLink w4 = None.
Proof.
  intros Hen Hs Hh Hc1 Hoff Hon Hc2 Hne w1 w2 w3 w4.
  destruct (press_on_clickable_link env p0 b0 l1 w Hen Hh Hc1)
    as (Ha1 & Hh1 & Hm1 & Hcmd1 & Hs1).
  fold w1 in Ha1, Hh1, Hm1, Hcmd1, Hs1. rewrite Hs in Hs1.
  destruct (move_off_link env p1 b1 l1 w1 Hs1 Hh1 Hoff)
    as (Hm2 & Hh2 & Ha2 & Hcmd2 & Hs2).
  fold w2 in Hm2, Hh2, Ha2, Hcmd2, Hs2.
  assert (H3 : fHoverLink w3 = Some l2 /\ fClickedLink w3 = Some l1 /\
               commands w3 = commands w /\ fInSelectMode w3 = false /\
               link_mode w3 l1 = CHtmlDispLink_none).
  { destruct (decide (fHoverLink w2 = Some l2)) as [E|E].
    - assert (Hsame : w3 = w2).
      { unfold w3, mouseMoveEvent, updateLinkTracking. rewrite Hs2, andb_false_r.
        unfold link_at in Hon.
        destruct (find_by_pos env (docPos env p2)) as [d|]; [|done].
        rewrite Hen, Hon. by rewrite decide_True. }
      rewrite Hsame. repeat split; congruence.
    - destruct (move_onto_clickable_link env p2 b2 l2 w2 Hen Hs2 Hon Hc2 E)
        as (Hh3 & _ & Ha3 & Hcmd3 & Hs3 & _ & Hothers).
      fold w3 in Hh3, Ha3, Hcmd3, Hs3, Hothers.
      repeat split; try congruence.
      rewrite Hothers by congruence. done. }
  destruct H3 as (Hh3 & Ha3 & Hcmd3 & Hs3 & Hm3).
  destruct (release_off_armed_link env l1 l2 w3 Hs3 Ha3 Hh3 Hne)
    as (Hcmd4 & Ha4 & Hh4 & Hm4 & Hothers).
  fold w4 in Hcmd4, Ha4, Hh4, Hm4, Hothers.
  repeat split; try done; try congruence.
  rewrite Hothers by congruence. done.
Qed.

Lemma drag_to_other_link_witness :
  let env := demo_env true true in
  let w := mouseMoveEvent env at_link1 0 initial in
  let w1 := mousePressEvent env at_link1 LeftButton w in
  let w2 := mouseMoveEvent env at_nothing LeftButton w1 in
  let w3 := mouseMoveEvent env at_link2 LeftButton w2 in
  let w4 := mouseReleaseEvent env w3 in
  (fClickedLink w1 = Some 1%nat /\ link_mode w1 1%nat = CHtmlDispLink_clicked) /\
  commands w4 = commands w /\
  link_mode w4 2%nat = CHtmlDispLink_hover /\
  link_mode w4 1%nat = CHtmlDispLink_none /\
  fHoverLink w4 = Some 2%nat /\
  fClickedLink w4 = None.
Proof.
  intros env w.
  apply (drag_to_other_link env 1%nat 2%nat at_link1 LeftButton at_nothing LeftButton
           at_link2 LeftButton w);
    try reflexivity; vm_compute; discriminate.
Defined.

(** C10: while a link is armed, a move off it resets its mode to none and
    keeps it armed; a move back onto it restores the pointing-hand cursor and
    the hover pointer but leaves its mode none; a release then sends the
    link's command once and resets the armed pointer. *)
Theorem armed_link_off_and_back env l p1 b1 p2 b2 w :
  enableLinks env = true ->
  fInSelectMode w = false ->
  fClickedLink w = Some l ->
  fHoverLink w = Some l ->
  is_clickable_link env l = true ->
  link_at env p1 <> Some l ->
  link_at env p2 = Some l ->
  let w1 := mouseMoveEvent env p1 b1 w in
  let w2 := mouseMoveEvent env p2 b2 w1 in
  let w3 := mouseReleaseEvent env w2 in
  (link_mode w1 l = CHtmlDispLink_none /\ fClickedLink w1 = Some l /\
   fHoverLink w1 <> Some l) /\
  (cursor w2 = PointingHandCursor /\ link_mode w2 l = CHtmlDispLink_none /\
   fHoverLink w2 = Some l /\ fClickedLink w2 = Some l) /\
  (commands w3 = commands w ++ [link_command env l] /\ fClickedLink w3 = None).
Proof.
  intros Hen Hs Ha Hh Hc Hoff Hon w1 w2 w3.
  destruct (move_off_link env p1 b1 l w Hs Hh Hoff) as (Hm1 & Hh1 & Ha1 & Hcmd1 & Hs1).
  fold w1 in Hm1, Hh1, Ha1, Hcmd1, Hs1.
  destruct (move_onto_clickable_link env p2 b2 l w1 Hen Hs1 Hon Hc Hh1)
    as (Hh2 & Hcur2 & Ha2 & Hcmd2 & Hs2 & Hm2 & _).
  fold w2 in Hh2, Hcur2, Ha2, Hcmd2, Hs2, Hm2.
  rewrite Ha1, Ha in Ha2, Hm2. rewrite andb_false_r in Hm2.
  destruct (release_on_armed_link env l w2 Hs2 Ha2 Hh2) as (Hcmd3 & Ha3 & _).
  fold w3 in Hcmd3, Ha3.
  repeat split; try done; congruence.
Qed.

Lemma armed_link_off_and_back_witness :
  let env := demo_env true true in
  let w := run (hover_and_press env) initial in
  let w1 := mouseMoveEvent env at_nothing LeftButton w in
  let w2 := mouseMoveEvent env at_link1 LeftButton w1 in
  let w3 := mouseReleaseEvent env w2 in
  (link_mode w1 1%nat = CHtmlDispLink_none /\ fClickedLink w1 = Some 1%nat /\
   fHoverLink w1 <> Some 1%nat) /\
  (cursor w2 = PointingHandCursor /\ link_mode w2 1%nat = CHtmlDispLink_none /\
   fHoverLink w2 = Some 1%nat /\ fClickedLink w2 = Some 1%nat) /\
  (commands w3 = commands w ++ [link_command env 1%nat] /\ fClickedLink w3 = None).
Proof.
  intros env w.
  apply (armed_link_off_and_back env 1%nat at_nothing LeftButton at_link1 LeftButton w);
    try reflexivity; vm_compute; discriminate.
Defined.


(** ** Refreshing link tracking twice *)

(** C8: running [updateLinkTracking] a second time at the same position
    changes no visual mode: the table of link modes, both link pointers, the
    cursor and the status text are what the first run left.  Any call of
    [set_clicked] made by the second run stores the mode the link already
    has. *)
Theorem updateLinkTracking_twice env pos w :
  let w1 := updateLinkTracking env pos w in
  let w2 := updateLinkTracking env pos w1 in
  clicked_ w2 = clicked_ w1 /\
  fHoverLink w2 = fHoverLink w1 /\ fClickedLink w2 = fClickedLink w1 /\
  cursor w2 = cursor w1 /\ statusMessage w2 = statusMessage w1 /\
  exists again, set_clicked_calls w2 = set_clicked_calls w1 ++ again /\
                Forall (fun c => link_mode w1 c.1 = c.2) again.
Proof.
  intros w1 w2.
  assert (Hsame : w2 = w1 ->
    clicked_ w2 = clicked_ w1 /\
    fHoverLink w2 = fHoverLink w1 /\ fClickedLink w2 = fClickedLink w1 /\
    cursor w2 = cursor w1 /\ statusMessage w2 = statusMessage w1 /\
    exists again, set_clicked_calls w2 = set_clicked_calls w1 ++ again /\
                  Forall (fun c => link_mode w1 c.1 = c.2) again).
  { intros ->. repeat split. exists []. by rewrite app_nil_r. }
  destruct (find_by_pos env (docPos env pos)) as [d|] eqn:Hd.
  2:{ apply Hsame. unfold w2, w1. rewrite !updateLinkTracking_no_disp by done.
      destruct w as [h c sel org modes calls cur st selc cmds].
      by destruct h. }
  destruct (enableLinks env) eqn:Hen.
  2:{ apply Hsame. unfold w2, w1.
      rewrite !(updateLinkTracking_links_off env pos d) by done.
      apply forgetTracking_twice. }
  destruct (decide (link_at env pos = fHoverLink w)) as [E|E].
  { apply Hsame. unfold w2, w1.
    by rewrite !(updateLinkTracking_same_link env pos d w). }
  assert (E1 : w1 = showFeedback env d (link_at env pos)
                      (trackNewLink env (link_at env pos) w)).
  { by apply updateLinkTracking_new_link. }
  pose proof (trackNewLink_hover env (link_at env pos) w) as Hh.
  unfold showFeedback in E1.
  destruct (alt_text env d) as [t|] eqn:Ha.
  { apply Hsame. apply (updateLinkTracking_same_link env pos d); try done.
    by rewrite E1. }
  destruct (link_at env pos) as [l|] eqn:Hl.
  2:{ apply Hsame. apply (updateLinkTracking_same_link env pos d); try done.
      by rewrite Hl, E1, forgetTracking_hover. }
  destruct (is_clickable_link env l) eqn:Hc.
  { apply Hsame. apply (updateLinkTracking_same_link env pos d); try done.
    by rewrite Hl, E1. }
  assert (Hh1 : fHoverLink w1 = None).
  { by rewrite E1, forgetTracking_hover. }
  assert (E2 : w2 = showFeedback env d (Some l) (trackNewLink env (Some l) w1)).
  { unfold w2. rewrite (updateLinkTracking_new_link env pos d); rewrite ?Hl; try done.
    by rewrite Hh1. }
  unfold showFeedback, trackNewLink in E2. rewrite Ha, Hc, Hh1 in E2.
  unfold forgetTracking in E1, E2. cbv zeta in E1, E2.
  unfold_writes. rewrite Hh in E1.
  rewrite E2. unfold_writes. rewrite E1. unfold_writes.
  rewrite insert_insert_eq. repeat split.
  eexists [_]. split; [reflexivity|].
  repeat constructor. cbn [fst snd]. unfold link_mode. unfold_writes.
  by rewrite lookup_insert_eq.
Qed.

(** On a link that is neither clickable nor annotated the second run does
    call [set_clicked], with the mode none the link already has. *)
Lemma dead_link_refresh_repeats_call :
  let env := demo_env true true in
  let w1 := updateLinkTracking env at_dead_link initial in
  let w2 := updateLinkTracking env at_dead_link w1 in
  set_clicked_calls w1 = [(4%nat, CHtmlDispLink_none)] /\
  set_clicked_calls w2 = [(4%nat, CHtmlDispLink_none); (4%nat, CHtmlDispLink_none)] /\
  link_mode w1 4%nat = CHtmlDispLink_none /\ link_mode w2 4%nat = CHtmlDispLink_none.
Proof. vm_compute. repeat split. Qed.

(** ** Leaving the widget *)

Lemma leaveEvent_fields w :
  let w' := leaveEvent w in
  fHoverLink w' = None /\ fClickedLink w' = None /\
  cursor w' = DefaultCursor /\ statusMessage w' = EmptyString.
Proof.
  destruct w as [h c sel org modes calls cur st selc cmds].
  unfold_handlers. by destruct c, h.
Qed.

(** With nothing tracked and cursor and status bar at their defaults, the
    invalidation changes nothing. *)
Lemma fInvalidateLinkTracking_fixed w :
  fHoverLink w = None -> fClickedLink w = None ->
  cursor w = DefaultCursor -> statusMessage w = EmptyString ->
  fInvalidateLinkTracking w = w.
Proof.
  destruct w as [h c sel org modes calls cur st selc cmds]; proj.
  by intros -> -> -> ->.
Qed.

(** With nothing tracked, a press, a release or a leave calls [set_clicked]
    for no link and tracks nothing. *)
Lemma untracked_press_release_leave env e w :
  fHoverLink w = None -> fClickedLink w = None ->
  (forall p b, e <> MouseMove p b) ->
  let w' := handleEvent env e w in
  clicked_ w' = clicked_ w /\ set_clicked_calls w' = set_clicked_calls w /\
  fHoverLink w' = None /\ fClickedLink w' = None.
Proof.
  destruct w as [h c sel org modes calls cur st selc cmds]; proj.
  intros -> -> Hmove.
  destruct e as [p b| |p b|]; [by destruct (Hmove p b)| | |]; unfold_handlers.
  - done.
  - by destruct (leftDown b), sel.
  - by destruct sel.
Qed.

(** With nothing tracked and no link highlighted, a move can only highlight
    and track the link the layout reports under the mouse. *)
Lemma untracked_move env p b w :
  fHoverLink w = None ->
  (forall l, link_mode w l = CHtmlDispLink_none) ->
  let w' := mouseMoveEvent env p b w in
  fClickedLink w' = fClickedLink w /\
  forall l, (link_mode w' l <> CHtmlDispLink_none -> link_at env p = Some l) /\
            (fHoverLink w' = Some l -> link_at env p = Some l).
Proof.
  intros Hh Hnone. cbv zeta. unfold mouseMoveEvent.
  destruct (leftDown b && fInSelectMode w).
  - split; [done|]. intros l. split.
    + intros Hl. destruct Hl. apply (Hnone l).
    + intros Hl. exfalso. revert Hl. change (fHoverLink w <> Some l). congruence.
  - destruct (updateLinkTracking_frame env p w) as (_ & _ & Hc' & _).
    split; [done|]. intros l. split.
    + intros Hl. destruct (decide (link_at env p = Some l)) as [|Hne]; [done|].
      destruct (updateLinkTracking_other_modes env p w l Hne) as [H|H];
        rewrite H in Hl; [by rewrite Hnone in Hl | done].
    + intros Hl. destruct (updateLinkTracking_hover env p w) as [H|H]; congruence.
Qed.

(** C6, as stated, fails for a move: after hovering link 1 and leaving, a
    move onto link 2 puts link 2 in mode hover, so an event that arrives
    after a leave does change a link's visual mode. *)
Lemma move_after_leave_sets_hover :
  let env := demo_env true true in
  let w := run hover_then_leave initial in
  let w' := handleEvent env (MouseMove at_link2 0) w in
  link_mode w 2%nat = CHtmlDispLink_none /\
  link_mode w' 2%nat = CHtmlDispLink_hover /\
  set_clicked_calls w' = set_clicked_calls w ++ [(2%nat, CHtmlDispLink_hover)].
Proof. vm_compute. repeat split. Qed.

(** C6 (amended): after a leave in a reachable state both link pointers are
    empty, every link is in mode none, cursor and status bar are at their
    defaults; a second leave changes nothing at all; a press, release or
    leave that follows calls [set_clicked] for no link and tracks nothing;
    a move that follows highlights and tracks at most the link the layout
    reports under the mouse at that moment, and arms nothing. *)
Theorem leave_invalidates_tracking w :
  reachable w ->
  let w' := leaveEvent w in
  (fHoverLink w' = None /\ fClickedLink w' = None /\
   (forall l, link_mode w' l = CHtmlDispLink_none) /\
   cursor w' = DefaultCursor /\ statusMessage w' = EmptyString) /\
  leaveEvent w' = w' /\
  (forall env e, (forall p b, e <> MouseMove p b) ->
     let w'' := handleEvent env e w' in
     clicked_ w'' = clicked_ w' /\ set_clicked_calls w'' = set_clicked_calls w' /\
     fHoverLink w'' = None /\ fClickedLink w'' = None) /\
  (forall env p b,
     let w'' := handleEvent env (MouseMove p b) w' in
     fClickedLink w'' = None /\
     forall l, (link_mode w'' l <> CHtmlDispLink_none -> link_at env p = Some l) /\
               (fHoverLink w'' = Some l -> link_at env p = Some l)).
Proof.
  intros Hw w'.
  destruct (leaveEvent_fields w) as (Hh & Hc & Hcur & Hst). fold w' in Hh, Hc, Hcur, Hst.
  assert (Hnone : forall l, link_mode w' l = CHtmlDispLink_none).
  { apply tracked_only_invalidate. by apply reachable_tracked_only. }
  repeat split; try done.
  - by apply fInvalidateLinkTracking_fixed.
  - by apply untracked_press_release_leave.
  - by apply untracked_press_release_leave.
  - by apply untracked_press_release_leave.
  - by apply untracked_press_release_leave.
  - destruct (untracked_move env p b w' Hh Hnone) as [H _]. by rewrite <- Hc.
  - by apply (untracked_move env p b w' Hh Hnone).
  - by apply (untracked_move env p b w' Hh Hnone).
Qed.

Lemma leave_invalidates_tracking_witness :
  let w := run (hover_and_press (demo_env true true)) initial in
  let w' := leaveEvent w in
  reachable w /\
  (fHoverLink w' = None /\ fClickedLink w' = None /\
   (forall l, link_mode w' l = CHtmlDispLink_none) /\
   cursor w' = DefaultCursor /\ statusMessage w' = EmptyString) /\
  leaveEvent w' = w' /\
  (forall env e, (forall p b, e <> MouseMove p b) ->
     let w'' := handleEvent env e w' in
     clicked_ w'' = clicked_ w' /\ set_clicked_calls w'' = set_clicked_calls w' /\
     fHoverLink w'' = None /\ fClickedLink w'' = None) /\
  (forall env p b,
     let w'' := handleEvent env (MouseMove p b) w' in
     fClickedLink w'' = None /\
     forall l, (link_mode w'' l <> CHtmlDispLink_none -> link_at env p = Some l) /\
               (fHoverLink w'' = Some l -> link_at env p = Some l)).
Proof.
  intros w w'.
  assert (Hw : reachable w).
  { exact (reach_step _ _ _ (reach_step _ _ _ reach_init)). }
  split; [exact Hw | exact (leave_invalidates_tracking w Hw)].
Defined.

(** ** Selecting and link tracking together *)

(** C7, as stated, fails.  Press on link 1, drag off to an empty place, press
    a second button with the first still held: the widget is selecting while
    link 1 is still armed.  Press on an empty place and let a move that
    reports no button reach link 1: the widget is selecting while link 1 is
    hovered. *)
Lemma selecting_with_tracked_link :
  (let w := run drag_off_then_press initial in
   reachable w /\ fInSelectMode w = true /\ fClickedLink w = Some 1%nat) /\
  (let w := run press_then_free_move initial in
   reachable w /\ fInSelectMode w = true /\ fHoverLink w = Some 1%nat).
Proof.
  split; cbv zeta; (split; [apply reachable_run, reach_init | by vm_compute]).
Qed.

(** C7 (amended): selection mode is entered only by a press with the left
    button down while no link is hovered, and no link is hovered right after
    it; while selecting, a move with the left button down does no link
    tracking (both link pointers, the link modes and the calls of
    [set_clicked] are unchanged); and a link gets armed only if it is the
    hovered one.  An armed link may survive into selection mode, and a move
    without the left button tracks links while selecting. *)
Theorem selection_and_tracking env e w :
  let w' := handleEvent env e w in
  (fInSelectMode w = false -> fInSelectMode w' = true ->
     fHoverLink w = None /\ fHoverLink w' = None /\
     exists pos b, e = MousePress pos b /\ leftDown b = true) /\
  (fInSelectMode w = true -> (exists pos b, e = MouseMove pos b /\ leftDown b = true) ->
     fInSelectMode w' = true /\ fHoverLink w' = fHoverLink w /\
     fClickedLink w' = fClickedLink w /\ clicked_ w' = clicked_ w /\
     set_clicked_calls w' = set_clicked_calls w) /\
  (forall l, fClickedLink w' = Some l -> fClickedLink w <> Some l ->
     fHoverLink w = Some l /\ fHoverLink w' = Some l).
Proof.
  destruct w as [h c sel org modes calls cur st selc cmds]; cbv zeta.
  split; [|split].
  - proj. intros -> Hsel.
    destruct e as [p b| |p b|].
    + exfalso. revert Hsel. unfold handleEvent, mouseMoveEvent; proj.
      rewrite andb_false_r.
      by rewrite (proj1 (updateLinkTracking_frame env p _)).
    + exfalso. revert Hsel. unfold_handlers. by destruct c, h.
    + revert Hsel. unfold_handlers.
      destruct h as [h|].
      * by destruct (is_clickable_link env h), (enableLinks env).
      * destruct (leftDown b) eqn:Hb; [|done]. intros _.
        repeat split. exists p, b. by split.
    + exfalso. revert Hsel. unfold_handlers. proj.
      repeat (case_match; proj; try done).
  - proj. intros -> (p & b & -> & Hb). unfold_handlers. by rewrite Hb.
  - intros l. proj. destruct e as [p b| |p b|];
      [unfold handleEvent, mouseMoveEvent; proj | unfold_handlers ..].
    + destruct (leftDown b), sel; proj;
        try (unfold set_sel_range; proj; intros; congruence);
        match goal with
        | |- context [updateLinkTracking env p ?v] =>
            pose proof (updateLinkTracking_frame env p v) as (_ & _ & Hc & _);
            proj; rewrite Hc; congruence
        end.
    + destruct c, h; proj; congruence.
    + destruct h as [h|]; [|destruct (leftDown b), sel; proj; congruence].
      destruct (is_clickable_link env h), (enableLinks env); proj; try congruence.
      intros ? ?. by simplify_eq.
    + destruct sel; [proj; congruence|].
      destruct c as [c|]; [|proj; congruence].
      repeat (case_match; proj; try done).
Qed.

Lemma selection_and_tracking_witness :
  let env := demo_env true true in
  (let w := initial in
   let w' := handleEvent env (MousePress at_nothing LeftButton) w in
   fHoverLink w = None /\ fHoverLink w' = None /\
   exists pos b, MousePress at_nothing LeftButton = MousePress pos b /\ leftDown b = true) /\
  (let w := mousePressEvent env at_nothing LeftButton initial in
   let w' := handleEvent env (MouseMove at_link1 LeftButton) w in
   fInSelectMode w' = true /\ fHoverLink w' = fHoverLink w /\
   fClickedLink w' = fClickedLink w /\ clicked_ w' = clicked_ w /\
   set_clicked_calls w' = set_clicked_calls w) /\
  (let w := mouseMoveEvent env at_link1 0 initial in
   let w' := handleEvent env (MousePress at_link1 LeftButton) w in
   fHoverLink w = Some 1%nat /\ fHoverLink w' = Some 1%nat).
Proof.
  intros env. split; [|split].
  - apply (proj1 (selection_and_tracking env (MousePress at_nothing LeftButton) initial));
      reflexivity.
  - apply (proj1 (proj2 (selection_and_tracking env (MouseMove at_link1 LeftButton)
                           (mousePressEvent env at_nothing LeftButton initial))));
      [reflexivity | exists at_link1, LeftButton; split; reflexivity].
  - apply (proj2 (proj2 (selection_and_tracking env (MousePress at_link1 LeftButton)
                           (mouseMoveEvent env at_link1 0 initial))) 1%nat);
      [reflexivity | vm_compute; discriminate].
Defined.

(** ** Links switched off *)

(** With links switched off and no link armed, an event arms nothing and
    every call of [set_clicked] it makes resets a link to mode none. *)
Lemma links_off_step env e w :
  enableLinks env = false ->
  fClickedLink w = None ->
  let w' := handleEvent env e w in
  fClickedLink w' = None /\
  (exists calls, set_clicked_calls w' = set_clicked_calls w ++ calls /\
                 Forall (fun c => c.2 = CHtmlDispLink_none) calls) /\
  (forall l, link_mode w' l = link_mode w l \/ link_mode w' l = CHtmlDispLink_none).
Proof.
  destruct w as [h c sel org modes calls cur st selc cmds]; proj.
  intros Hen ->.
  assert (Hnil : forall cs0 : list (Link * LinkMode),
            exists cs, cs0 = cs0 ++ cs /\
                       Forall (fun c => c.2 = CHtmlDispLink_none) cs).
  { intros cs0. exists []. by rewrite app_nil_r. }
  assert (Hone : forall (cs0 : list (Link * LinkMode)) l0,
            exists cs, cs0 ++ [(l0, CHtmlDispLink_none)] = cs0 ++ cs /\
                       Forall (fun c => c.2 = CHtmlDispLink_none) cs).
  { intros cs0 l0. exists [(l0, CHtmlDispLink_none)]. split; [done|]. by repeat constructor. }
  destruct e as [p b| |p b|]; unfold_handlers; rewrite ?Hen.
  - destruct (leftDown b), sel, (find_by_pos env (docPos env p)), h as [h|];
      unfold_writes; (split; [done|]); (split; [first [apply Hone | apply (Hnil _)]|]);
      intros l; read_modes; auto.
  - destruct h as [h|]; (split; [done|]); (split; [first [apply Hone | apply (Hnil _)]|]);
      intros l; read_modes; auto.
  - destruct h as [h|]; [destruct (is_clickable_link env h) | destruct (leftDown b), sel];
      unfold_writes; (split; [done|]); (split; [apply (Hnil _)|]); auto.
  - destruct sel; unfold_writes; (split; [done|]); (split; [apply (Hnil _)|]); auto.
Qed.

Lemma links_off_run tr w :
  Forall (fun ee => enableLinks ee.1 = false) tr ->
  fClickedLink w = None ->
  let w' := run tr w in
  fClickedLink w' = None /\
  (exists calls, set_clicked_calls w' = set_clicked_calls w ++ calls /\
                 Forall (fun c => c.2 = CHtmlDispLink_none) calls) /\
  (forall l, link_mode w' l = link_mode w l \/ link_mode w' l = CHtmlDispLink_none).
Proof.
  intros Hall. revert w.
  induction Hall as [|[env e] tr Hen _ IH]; intros w Hc; cbn [run].
  - repeat split; auto. exists []. by rewrite app_nil_r.
  - destruct (links_off_step env e w Hen Hc) as (Hc1 & (cs1 & Hcs1 & Hf1) & Hm1).
    destruct (IH _ Hc1) as (Hc2 & (cs2 & Hcs2 & Hf2) & Hm2).
    split; [done|]. split.
    + exists (cs1 ++ cs2). rewrite Hcs2, Hcs1, <- app_assoc. split; [done|].
      by apply Forall_app.
    + intros l. destruct (Hm2 l) as [->| ->]; auto.
Qed.

(** With links switched off, a move over any display object (outside a
    selection drag) clears the status bar, resets the cursor and tracks
    nothing, whether or not the object has ALT text. *)
Lemma links_off_move env p b d w :
  enableLinks env = false ->
  find_by_pos env (docPos env p) = Some d ->
  leftDown b && fInSelectMode w = false ->
  let w' := mouseMoveEvent env p b w in
  statusMessage w' = EmptyString /\ cursor w' = DefaultCursor /\ fHoverLink w' = None.
Proof.
  destruct w as [h c sel org modes calls cur st selc cmds]; proj.
  intros Hen Hd Hdrag. unfold mouseMoveEvent; proj. rewrite Hdrag.
  cbv zeta. rewrite (updateLinkTracking_links_off env p d) by done.
  unfold forgetTracking. by destruct h.
Qed.


(** Links switched off in mid-session, while a link is armed: the release
    still sends the link's command and puts the link in mode hover.  This is
    why the statement below is about sessions with links off from the
    start. *)
Lemma release_after_links_switched_off :
  let on := demo_env true true in
  let off := demo_env false true in
  let w := run [(on, MouseMove at_link1 0); (on, MousePress at_link1 LeftButton);
                (off, MouseRelease)] initial in
  link_mode w 1%nat = CHtmlDispLink_hover /\
  commands w = [mkCommand "north" 5 false true].
Proof. vm_compute. repeat split. Qed.





(** * Further properties of the display widget *)

(** ** Commands *)

(** The command queue after one event. *)
Lemma handleEvent_commands env e w :
  let w' := handleEvent env e w in
  commands w' = commands w \/
  (e = MouseRelease /\ fInSelectMode w = false /\
   exists l, fClickedLink w = Some l /\ fHoverLink w = Some l /\
             commands w' = commands w ++ [link_command env l]).
Proof.
  cbv zeta. destruct e as [p b| |p b|]; unfold handleEvent.
  - left. unfold mouseMoveEvent. destruct (leftDown b && fInSelectMode w); [done|].
    apply updateLinkTracking_frame.
  - left. destruct w as [[h|] [c|] sel org modes calls cur st selc cmds]; done.
  - left. destruct w as [[h|] c sel org modes calls cur st selc cmds];
      unfold_handlers.
    + by destruct (is_clickable_link env h), (enableLinks env).
    + by destruct (leftDown b), sel.
  - destruct w as [h c sel org modes calls cur st selc cmds]; unfold_handlers.
    destruct sel; [by left|]. destruct c as [c|]; [|by left].
    destruct (decide (Some c = h)) as [<-|Hne].
    + right. repeat split. exists c. repeat split.
      by destruct (highlightLinks env).
    + left. by destruct h.
Qed.

(** X1: only a release sends a command, and only for a link that is both
    armed and hovered while the widget is not selecting; a move, a press or
    a leave never sends one. *)
Theorem dispatch_only_on_release env e w :
  let w' := handleEvent env e w in
  commands w' = commands w \/
  (e = MouseRelease /\ fInSelectMode w = false /\
   exists l, fClickedLink w = Some l /\ fHoverLink w = Some l /\
             commands w' = commands w ++ [link_command env l]).
Proof. apply handleEvent_commands. Qed.

(** The armed link was clickable, and links were followed, when it was
    pressed; under settings and a layout that do not change this stays so. *)
Lemma armed_link_clickable env e w :
  (forall l, fClickedLink w = Some l ->
             is_clickable_link env l = true /\ enableLinks env = true) ->
  forall l, fClickedLink (handleEvent env e w) = Some l ->
            is_clickable_link env l = true /\ enableLinks env = true.
Proof.
  intros Hinv l. destruct e as [p b| |p b|]; unfold handleEvent.
  - unfold mouseMoveEvent. destruct (leftDown b && fInSelectMode w); [apply Hinv|].
    destruct (updateLinkTracking_frame env p w) as (_ & _ & -> & _). apply Hinv.
  - by destruct w as [[h|] [c|] sel org modes calls cur st selc cmds].
  - destruct w as [[h|] c sel org modes calls cur st selc cmds]; unfold_handlers.
    + destruct (is_clickable_link env h) eqn:Hc, (enableLinks env) eqn:Hen;
        try apply Hinv. intros [= <-]. by rewrite Hc.
    + destruct (leftDown b), sel; apply Hinv.
  - destruct w as [h c sel org modes calls cur st selc cmds]; unfold_handlers.
    destruct sel; [apply Hinv|]. destruct c as [c|]; [|apply Hinv]. done.
Qed.

Lemma dispatched_commands_from env es w :
  (forall l, fClickedLink w = Some l ->
             is_clickable_link env l = true /\ enableLinks env = true) ->
  Forall (fun c => enableLinks env = true /\
                   exists l, is_clickable_link env l = true /\ c = link_command env l)
    (commands w) ->
  let w' := run ((fun e => (env, e)) <$> es) w in
  Forall (fun c => enableLinks env = true /\
                   exists l, is_clickable_link env l = true /\ c = link_command env l)
    (commands w') /\
  (length (commands w') <= length (commands w) + length (filter is_release es))%nat.
Proof.
  revert w. induction es as [|e es IH]; intros w Harmed Hcmds; cbn [fmap list_fmap run].
  - split; [done|lia].
  - specialize (IH (handleEvent env e w) (armed_link_clickable env e w Harmed)).
    destruct (handleEvent_commands env e w) as [Hsame|(-> & _ & l & Hc & _ & Hadd)].
    + rewrite Hsame in IH. destruct (IH Hcmds) as [H1 H2]. split; [done|].
      rewrite filter_cons. destruct (decide (is_release e)); simpl; lia.
    + rewrite Hadd in IH. destruct IH as [H1 H2].
      { apply Forall_app. split; [done|]. constructor; [|done].
        destruct (Harmed l Hc). eauto. }
      split; [done|]. rewrite length_app in H2. rewrite filter_cons. simpl in *. lia.
Qed.

(** X2: in a run from the initial state under fixed settings and layout,
    every command sent is the command of a clickable link and was sent with
    links followed (so none is sent with links switched off), and there are
    at most as many commands as releases. *)
Theorem dispatched_commands_clickable env es :
  let w := run ((fun e => (env, e)) <$> es) initial in
  Forall (fun c => enableLinks env = true /\
                   exists l, is_clickable_link env l = true /\ c = link_command env l)
    (commands w) /\
  (length (commands w) <= length (filter is_release es))%nat.
Proof.
  cbv zeta. destruct (dispatched_commands_from env es initial) as [H1 H2]; [done|done|].
  split; [done|]. simpl in H2. lia.
Qed.


(** ** Cursor and highlight while a link is tracked *)

Lemma hand_cursor_step env e w :
  (forall l, fHoverLink w = Some l -> is_clickable_link env l = true ->
             cursor w = PointingHandCursor) ->
  forall l, fHoverLink (handleEvent env e w) = Some l ->
            is_clickable_link env l = true ->
            cursor (handleEvent env e w) = PointingHandCursor.
Proof.
  intros Hinv l. destruct e as [p b| |p b|]; unfold handleEvent.
  - unfold mouseMoveEvent. destruct (leftDown b && fInSelectMode w); [apply Hinv|].
    destruct w as [h c sel org modes calls cur st selc cmds].
    tracking_cases env p (mkDisplayWidget h c sel org modes calls cur st selc cmds) d.
    + apply Hinv.
    + unfold showFeedback, trackNewLink, forgetTracking.
      destruct (link_at env p) as [l0|]; [destruct (is_clickable_link env l0) eqn:Hc0|];
        destruct (alt_text env d), h as [h|], c as [c|], (highlightLinks env);
        unfold_writes; settle_tests; try done; intros [= <-]; congruence.
    + by rewrite forgetTracking_hover.
    + by destruct h.
  - by destruct w as [[h|] [c|] sel org modes calls cur st selc cmds].
  - destruct w as [[h|] c sel org modes calls cur st selc cmds]; unfold_handlers.
    + destruct (is_clickable_link env h), (enableLinks env); apply Hinv.
    + destruct (leftDown b), sel; apply Hinv.
  - destruct w as [h c sel org modes calls cur st selc cmds]; unfold_handlers.
    destruct sel; [apply Hinv|]. destruct c as [c|]; [|apply Hinv].
    destruct (decide (Some c = h)), (highlightLinks env), h; apply Hinv.
Qed.

(** X4: in a run from the initial state under fixed settings and layout,
    whenever the hovered link is clickable the cursor is the pointing hand. *)
Theorem hovered_clickable_link_has_hand_cursor env es l :
  let w := run ((fun e => (env, e)) <$> es) initial in
  fHoverLink w = Some l -> is_clickable_link env l = true ->
  cursor w = PointingHandCursor.
Proof.
  cbv zeta.
  assert (Hgen : forall w0,
    (forall l, fHoverLink w0 = Some l -> is_clickable_link env l = true ->
               cursor w0 = PointingHandCursor) ->
    forall l, fHoverLink (run ((fun e => (env, e)) <$> es) w0) = Some l ->
              is_clickable_link env l = true ->
              cursor (run ((fun e => (env, e)) <$> es) w0) = PointingHandCursor).
  { induction es as [|e es IH]; intros w0 Hinv; cbn [fmap list_fmap run]; [done|].
    apply IH. by apply hand_cursor_step. }
  apply Hgen. done.
Qed.

Lemma hovered_clickable_link_has_hand_cursor_witness :
  let env := demo_env true false in
  let es := [MouseMove at_link2 0; MousePress at_link2 LeftButton; MouseRelease] in
  let w := run ((fun e => (env, e)) <$> es) initial in
  (fHoverLink w = Some 2%nat /\ is_clickable_link env 2%nat = true) /\
  cursor w = PointingHandCursor.
Proof.
  intros env es w. split; [split; reflexivity|].
  apply (hovered_clickable_link_has_hand_cursor env es 2%nat); reflexivity.
Defined.

(** While a link is armed, [updateLinkTracking] puts no link in mode hover:
    every link keeps its mode or is reset. *)
Lemma updateLinkTracking_armed env pos c w :
  fClickedLink w = Some c ->
  forall l, link_mode (updateLinkTracking env pos w) l = link_mode w l \/
            link_mode (updateLinkTracking env pos w) l = CHtmlDispLink_none.
Proof.
  destruct w as [h c0 sel org modes calls cur st selc cmds]; proj.
  intros -> l.
  tracking_cases env pos
    (mkDisplayWidget h (Some c) sel org modes calls cur st selc cmds) d.
  - by left.
  - unfold showFeedback, trackNewLink, forgetTracking.
    destruct (link_at env pos) as [l0|]; [destruct (is_clickable_link env l0)|];
      destruct (alt_text env d), h as [h|], (highlightLinks env);
      unfold_writes; settle_tests; read_modes; auto.
  - unfold forgetTracking. destruct h as [h|]; unfold_writes; read_modes; auto.
  - destruct h as [h|]; unfold_writes; read_modes; auto.
Qed.

Lemma no_hover_while_armed_step env e w :
  tracked_only w ->
  (forall c, fClickedLink w = Some c -> forall l, link_mode w l <> CHtmlDispLink_hover) ->
  forall c, fClickedLink (handleEvent env e w) = Some c ->
  forall l, link_mode (handleEvent env e w) l <> CHtmlDispLink_hover.
Proof.
  intros Htr Hinv c. destruct e as [p b| |p b|]; unfold handleEvent.
  - unfold mouseMoveEvent. destruct (leftDown b && fInSelectMode w); [apply Hinv|].
    destruct (updateLinkTracking_frame env p w) as (_ & _ & Hc & _). rewrite Hc.
    intros Hc' l. destruct (updateLinkTracking_armed env p c w Hc' l) as [-> | ->];
      [by apply (Hinv c)|done].
  - by destruct w as [[h|] [c0|] sel org modes calls cur st selc cmds].
  - destruct w as [[h|] c0 sel org modes calls cur st selc cmds].
    + unfold_handlers.
      destruct (is_clickable_link env h), (enableLinks env); try apply Hinv.
      intros _ l. specialize (Htr l). read_modes.
      intros Hl. rewrite Hl in Htr. assert (Some h = Some l) by by apply Htr.
      congruence.
    + unfold_handlers. destruct (leftDown b), sel; apply Hinv.
  - destruct w as [h c0 sel org modes calls cur st selc cmds]; unfold_handlers.
    destruct sel; [apply Hinv|]. destruct c0 as [c0|]; [|apply Hinv]. done.
Qed.

(** X5: in every reachable state, while a link is armed no link at all is
    in mode hover. *)
Theorem no_hover_while_armed w c :
  reachable w -> fClickedLink w = Some c ->
  forall l, link_mode w l <> CHtmlDispLink_hover.
Proof.
  intros Hw. revert c. induction Hw as [|env e w Hw IH].
  - done.
  - apply no_hover_while_armed_step; [by apply reachable_tracked_only|done].
Qed.

Lemma no_hover_while_armed_witness :
  let w := run drag_off_then_press initial in
  (reachable w /\ fClickedLink w = Some 1%nat) /\
  forall l, link_mode w l <> CHtmlDispLink_hover.
Proof.
  intros w.
  assert (Hw : reachable w).
  { exact (reach_step _ _ _ (reach_step _ _ _ (reach_step _ _ _
             (reach_step _ _ _ reach_init)))). }
  split; [split; [exact Hw|reflexivity]|].
  exact (no_hover_while_armed w 1%nat Hw eq_refl).
Defined.

(** * Properties of the OS functions (src/osqt.cc) *)

(** ** The millisecond clock *)

(** One call, when the raw reading lies within a day and the count of days
    is far from the range of [long]: the count goes up by one exactly when
    the reading went down, nothing wraps around, and the value returned is
    not below the previous one. *)
Lemma os_get_sys_clock_ms_step bits r st :
  0 < bits ->
  0 <= wraps st -> (wraps st + 2) * msPerDay <= 2 ^ (bits - 1) ->
  lastRet st < msPerDay ->
  0 <= r < msPerDay ->
  let w' := if r <? lastRet st then wraps st + 1 else wraps st in
  os_get_sys_clock_ms bits r st = (r + w' * msPerDay, mkSysClock r w') /\
  lastRet st + wraps st * msPerDay <= r + w' * msPerDay.
Proof.
  intros Hbits Hw Hbound Hlast Hr. cbv zeta.
  assert (Hpow : 2 ^ bits = 2 * 2 ^ (bits - 1)).
  { rewrite <- Z.pow_succ_r by lia. f_equal. lia. }
  assert (Hday : msPerDay = 86400000) by reflexivity.
  unfold os_get_sys_clock_ms. cbv zeta.
  assert (Hw1 : wrap_unsigned bits (wraps st + 1) = wraps st + 1).
  { unfold wrap_unsigned. apply Z.mod_small. nia. }
  destruct (r <? lastRet st) eqn:Hlt; [apply Z.ltb_lt in Hlt|apply Z.ltb_ge in Hlt].
  - rewrite Hw1. unfold wrap_unsigned, to_signed.
    rewrite Z.mod_small by nia.
    destruct (_ <? _) eqn:Hs; [|apply Z.ltb_ge in Hs; nia].
    split; [done|nia].
  - unfold wrap_unsigned, to_signed.
    rewrite Z.mod_small by nia.
    destruct (_ <? _) eqn:Hs; [|apply Z.ltb_ge in Hs; nia].
    split; [done|nia].
Qed.

Lemma clock_readings_from bits readings st :
  0 < bits ->
  0 <= wraps st -> -1 <= lastRet st < msPerDay ->
  (wraps st + Z.of_nat (length readings) + 1) * msPerDay <= 2 ^ (bits - 1) ->
  Forall (fun r => 0 <= r < msPerDay) readings ->
  let outs := clock_readings bits readings st in
  Forall (fun o => lastRet st + wraps st * msPerDay <= o) outs /\
  (forall i j a b, (i <= j)%nat -> outs !! i = Some a -> outs !! j = Some b -> a <= b) /\
  Forall2 (fun r o => exists k, 0 <= k /\ o = r + k * msPerDay) readings outs.
Proof.
  intros Hbits Hw Hlast Hbound Hall. revert st Hw Hlast Hbound.
  induction Hall as [|r rs Hr _ IH]; intros st Hw Hlast Hbound; cbn [clock_readings].
  - repeat split; [constructor| |constructor]. intros i j a b _ H. by destruct i.
  - assert (Hday : msPerDay = 86400000) by reflexivity.
    cbn [length] in Hbound.
    destruct (os_get_sys_clock_ms_step bits r st) as [Heq Hle]; try lia.
    rewrite Heq.
    set (w' := if r <? lastRet st then wraps st + 1 else wraps st) in *.
    assert (Hw' : wraps st <= w' <= wraps st + 1) by (unfold w'; case_match; lia).
    destruct (IH (mkSysClock r w')) as (Hge & Hsorted & Hcongr); cbn [wraps lastRet];
      try lia.
    cbn [wraps lastRet] in Hge.
    repeat split.
    + constructor; [done|].
      eapply Forall_impl; [exact Hge|]. intros o Ho. simpl in Ho. lia.
    + intros [|i] [|j] a b Hij Ha Hb; simpl in Ha, Hb; simplify_eq; try lia.
      * rewrite Forall_forall in Hge. apply Hge. by eapply list_elem_of_lookup_2.
      * apply (Hsorted i j); [lia|done|done].
    + constructor; [|done]. exists w'. split; [lia|done].
Qed.

(** X6: called with raw readings that each lie within a day (and few enough
    calls that the count of days stays inside [long]), the clock never goes
    back, and every value it returns is the raw reading plus a whole number
    of days. *)
Theorem clock_never_goes_back bits readings :
  0 < bits ->
  (Z.of_nat (length readings) + 1) * msPerDay <= 2 ^ (bits - 1) ->
  Forall (fun r => 0 <= r < msPerDay) readings ->
  let outs := clock_readings bits readings sysClock_initial in
  (forall i j a b, (i <= j)%nat -> outs !! i = Some a -> outs !! j = Some b -> a <= b) /\
  Forall2 (fun r o => exists k, 0 <= k /\ o = r + k * msPerDay) readings outs.
Proof.
  intros Hbits Hbound Hall.
  destruct (clock_readings_from bits readings sysClock_initial) as (_ & H1 & H2);
    cbn [wraps lastRet sysClock_initial]; try done; try lia.
Qed.

Lemma clock_never_goes_back_witness :
  let readings := [5; 100; 3; 3; 2] in
  let outs := clock_readings 32 readings sysClock_initial in
  outs = [5; 100; 86400003; 86400003; 172800002] /\
  (forall i j a b, (i <= j)%nat -> outs !! i = Some a -> outs !! j = Some b -> a <= b) /\
  Forall2 (fun r o => exists k, 0 <= k /\ o = r + k * msPerDay) readings outs.
Proof.
  intros readings outs. split; [reflexivity|].
  apply (clock_never_goes_back 32 readings); [lia | vm_compute; discriminate |].
  repeat constructor; vm_compute; discriminate.
Defined.

(** ** Duplicating a file handle *)

Lemma osfdup_flags_check mode :
  forallb (fun m => bool_decide (m ∈ osfdup_flags)) mode = true <->
  Forall (fun m => m ∈ osfdup_flags) mode.
Proof.
  induction mode as [|m mode IH]; cbn [forallb].
  - split; [constructor|done].
  - rewrite andb_true_iff, bool_decide_eq_true, IH, Forall_cons. done.
Qed.

(** X7: [osfdup] gets as far as duplicating the handle exactly for the modes
    made of the characters r, w, +, b, s, t that begin with r or w (so not
    for the empty mode); the mode it then passes on is the caller's, and the
    translated mode it builds is r+, r or w, with r+ exactly when the second
    character is +. *)
Theorem osfdup_accepts mode :
  (is_Some (osfdup mode) <->
     Forall (fun m => m ∈ osfdup_flags) mode /\
     (mode !! 0%nat = Some "r"%char \/ mode !! 0%nat = Some "w"%char)) /\
  (forall realmode passed, osfdup mode = Some (realmode, passed) ->
     passed = mode /\
     (realmode = ["r"; "+"]%char \/ realmode = ["r"]%char \/ realmode = ["w"]%char) /\
     (realmode = ["r"; "+"]%char <-> mode !! 1%nat = Some "+"%char)).
Proof.
  unfold osfdup.
  destruct (forallb _ mode) eqn:Hall.
  - assert (HF : Forall (fun m => m ∈ osfdup_flags) mode)
      by by apply osfdup_flags_check.
    repeat case_bool_decide; cbn [andb orb]; (split; [split|]);
      try (intros _; split; by eauto);
      try (intros; by eexists);
      try (intros ? ? [= <- <-]; repeat split; try congruence; by eauto);
      try (by intros [? ?]);
      try (intros [_ [?|?]]; congruence);
      try done.
  - split; [split|]; [by intros [? ?]| |done].
    intros [HF _]. apply osfdup_flags_check in HF. congruence.
Qed.

(** ** The absolute name of a file *)

(** X8: [os_get_abs_filename] reports success exactly when the absolute
    name fits the buffer with its terminator, and then the buffer holds it;
    on failure it copies the name it was given, without a bound, so the copy
    runs past the buffer exactly when that name does not fit either. *)
Theorem os_get_abs_filename_result absoluteFilePath size filename :
  let r := os_get_abs_filename absoluteFilePath size filename in
  (r.1 = true <-> (length (absoluteFilePath filename) < size)%nat) /\
  (r.1 = true -> r.2 = Written (absoluteFilePath filename)) /\
  (r.1 = false ->
     (r.2 = Overrun <-> (size <= length filename)%nat) /\
     ((length filename < size)%nat -> r.2 = Written filename)).
Proof.
  cbv zeta. unfold os_get_abs_filename, qstrcpy.
  destruct (size <=? length (absoluteFilePath filename))%nat eqn:Hfit;
    [apply Nat.leb_le in Hfit|apply Nat.leb_gt in Hfit]; cbn [fst snd].
  - split; [split; [done|lia]|]. split; [done|]. intros _.
    destruct (length filename <? size)%nat eqn:Hf;
      [apply Nat.ltb_lt in Hf|apply Nat.ltb_ge in Hf].
    + split; [split; [done|lia]|done].
    + split; [done|lia].
  - split; [done|]. split; [|done]. intros _.
    by rewrite (proj2 (Nat.ltb_lt _ _) Hfit).
Qed.

(** ** Is a file in a directory *)

Lemma no_more_sep_Forall s :
  no_more_sep s = true <-> Forall (fun x => is_sep x = false) s.
Proof.
  induction s as [|c s IH]; cbn [no_more_sep].
  - split; [constructor|done].
  - rewrite Forall_cons. destruct (is_sep c); [|by rewrite IH; intuition].
    split; [done|]. by intros [? _].
Qed.

(** Ignoring a trailing separator shortens the path by at most one. *)
Lemma path_len_bounds path :
  (length path - 1 <= path_len path <= length path)%nat.
Proof. unfold path_len. cbv zeta. case_match; lia. Qed.

(** X9: [os_is_file_in_dir] answers yes exactly when the canonical file
    name is the canonical path (a trailing separator ignored, letter case
    folded) followed by a separator and a non-empty rest, and, when
    subdirectories are not included, that rest has no separator. *)
Theorem os_is_file_in_dir_spec fold_case canon filename path subdirs self :
  os_is_file_in_dir fold_case canon filename path subdirs self = true <->
  exists pre c rest,
    canon filename = pre ++ c :: rest /\
    length pre = path_len (canon path) /\
    fold_case <$> pre = fold_case <$> take (path_len (canon path)) (canon path) /\
    is_sep c = true /\ rest <> [] /\
    (subdirs = true \/ Forall (fun x => is_sep x = false) rest).
Proof.
  unfold os_is_file_in_dir. cbv zeta.
  set (f := canon filename). set (n := path_len (canon path)). clearbody f n.
  split.
  - destruct (length f <? n + 2)%nat eqn:Hlen; [done|]. apply Nat.ltb_ge in Hlen.
    unfold memicmp_eq. case_bool_decide as Hpre; [|done]. cbn [negb orb].
    unfold sep_at. destruct (f !! n) as [c|] eqn:Hc; [|done].
    destruct (is_sep c) eqn:Hsep; [|done]. cbn [negb].
    intros Hrest. exists (take n f), c, (drop (S n) f).
    repeat split.
    + by rewrite <- (take_drop_middle f n c Hc) at 1.
    + rewrite length_take. lia.
    + done.
    + done.
    + intros Hnil. apply (f_equal length) in Hnil. rewrite length_drop in Hnil.
      simpl in Hnil. lia.
    + destruct subdirs; [by left|right].
      apply no_more_sep_Forall. by rewrite <- Nat.add_1_r.
  - intros (pre & c & rest & Hf & Hlen & Hpre & Hsep & Hrest & Hsub).
    assert (Hflen : length f = (n + 1 + length rest)%nat).
    { rewrite Hf, length_app. simpl. lia. }
    assert (Hlong : (n + 2 <= length f)%nat).
    { destruct rest; [done|]. simpl in Hflen. lia. }
    rewrite (proj2 (Nat.ltb_ge _ _) Hlong). cbn [orb].
    unfold memicmp_eq. rewrite Hf, take_app_length' by done.
    rewrite bool_decide_eq_true_2 by done. cbn [negb].
    unfold sep_at. rewrite lookup_app_r by lia.
    replace (n - length pre)%nat with 0%nat by lia. cbn [lookup list_lookup].
    rewrite Hsep. cbn [negb].
    destruct subdirs; [done|]. destruct Hsub as [|Hsub]; [done|].
    rewrite drop_app_ge by lia.
    replace (n + 1 - length pre)%nat with 1%nat by lia. cbn [drop].
    by apply no_more_sep_Forall.
Qed.

(** X10: a name is never reported to be in itself: when file name and path
    canonicalize to the same string the answer is no, with or without
    subdirectories and whatever [match_self] says. *)
Theorem os_is_file_in_dir_self fold_case canon filename path subdirs self :
  canon filename = canon path ->
  os_is_file_in_dir fold_case canon filename path subdirs self = false.
Proof.
  intros Heq. unfold os_is_file_in_dir. cbv zeta. rewrite Heq.
  pose proof (path_len_bounds (canon path)).
  by rewrite (proj2 (Nat.ltb_lt _ _)) by lia.
Qed.

Lemma os_is_file_in_dir_self_witness :
  let f := String.list_ascii_of_string "/games/saves" in
  id f = id f /\ os_is_file_in_dir id id f f true true = false.
Proof.
  intros f. split; [reflexivity|].
  apply (os_is_file_in_dir_self id id f f true true). reflexivity.
Defined.

(** X11: a file found directly in a directory is also found when
    subdirectories are included. *)
Theorem os_is_file_in_dir_subdirs fold_case canon filename path self self' :
  os_is_file_in_dir fold_case canon filename path false self = true ->
  os_is_file_in_dir fold_case canon filename path true self' = true.
Proof.
  unfold os_is_file_in_dir. cbv zeta.
  destruct (_ || _); [done|]. by destruct (negb _).
Qed.

Lemma os_is_file_in_dir_subdirs_witness :
  let f := String.list_ascii_of_string "/games/saves/a.sav" in
  let p := String.list_ascii_of_string "/games/saves" in
  os_is_file_in_dir id id f p false false = true /\
  os_is_file_in_dir id id f p true false = true.
Proof.
  intros f p. split; [reflexivity|].
  apply (os_is_file_in_dir_subdirs id id f p false false). reflexivity.
Defined.

(** X12: one trailing separator on the canonical path makes no difference. *)
Theorem os_is_file_in_dir_trailing_sep fold_case canon filename path path' c subdirs self :
  canon path' = canon path ++ [c] ->
  is_sep c = true ->
  path_len (canon path) = length (canon path) ->
  os_is_file_in_dir fold_case canon filename path' subdirs self =
  os_is_file_in_dir fold_case canon filename path subdirs self.
Proof.
  intros Hp' Hsep Hplain. unfold os_is_file_in_dir. cbv zeta.
  assert (Hlen : path_len (canon path') = length (canon path)).
  { unfold path_len. cbv zeta. rewrite Hp', length_app. cbn [length].
    unfold sep_at. rewrite lookup_app_r by lia.
    replace (length (canon path) + 1 - 1 - length (canon path))%nat with 0%nat by lia.
    cbn [lookup list_lookup]. rewrite Hsep.
    rewrite (proj2 (Nat.ltb_lt _ _)) by lia. cbn [andb]. lia. }
  rewrite Hlen, Hplain. unfold memicmp_eq.
  by rewrite Hp', take_app_length, firstn_all.
Qed.

Lemma os_is_file_in_dir_trailing_sep_witness :
  let f := String.list_ascii_of_string "/games/saves/a.sav" in
  let p := String.list_ascii_of_string "/games/saves" in
  let p' := String.list_ascii_of_string "/games/saves/" in
  os_is_file_in_dir id id f p' false false = os_is_file_in_dir id id f p false false.
Proof.
  intros f p p'.
  apply (os_is_file_in_dir_trailing_sep id id f p p' "/"%char false false); reflexivity.
Defined.

(** ** File size and root directories *)

(** X15: whenever [stat] (or [lstat]) succeeds, the two 32-bit halves that
    [os_file_stat] stores put together give back the file size, for any
    size below 2^64 where the size type is wider than 32 bits and any size
    below 2^32 where it is not; this holds for the structure left behind
    even when the function then returns false. *)
Theorem os_file_stat_size fs (big_off : bool) fname (follow_links : bool)
    (s : FileStat) (buf : StatBuf) :
  (if follow_links then fs_stat fs fname else fs_lstat fs fname) = Some buf ->
  0 <= st_size buf < (if big_off then 2 ^ 64 else 2 ^ 32) ->
  let s' := (os_file_stat fs big_off fname follow_links s).2 in
  sizelo s' + 2 ^ 32 * sizehi s' = st_size buf /\
  0 <= sizelo s' < 2 ^ 32 /\ 0 <= sizehi s' < 2 ^ 32.
Proof.
  intros Hstat Hsize. cbv zeta. unfold os_file_stat. rewrite Hstat. cbv zeta.
  assert (Hfields : forall r : bool * FileStat,
    sizelo r.2 = uint32 (Z.land (st_size buf) 0xFFFFFFFF) ->
    sizehi r.2 = (if big_off
                  then uint32 (Z.land (Z.shiftr (st_size buf) 32) 0xFFFFFFFF)
                  else 0) ->
    sizelo r.2 + 2 ^ 32 * sizehi r.2 = st_size buf /\
    0 <= sizelo r.2 < 2 ^ 32 /\ 0 <= sizehi r.2 < 2 ^ 32).
  { intros r -> ->. unfold uint32.
    change 0xFFFFFFFF with (Z.ones 32).
    rewrite !Z.land_ones, Z.shiftr_div_pow2 by lia.
    rewrite (Z.mod_small (st_size buf mod 2 ^ 32)) by (apply Z.mod_pos_bound; lia).
    destruct big_off.
    - assert (Hq : 0 <= st_size buf / 2 ^ 32 < 2 ^ 32).
      { split; [apply Z.div_pos; lia|]. apply Z.div_lt_upper_bound; lia. }
      rewrite !(Z.mod_small (st_size buf / 2 ^ 32)) by lia.
      pose proof (Z.div_mod (st_size buf) (2 ^ 32) ltac:(lia)).
      pose proof (Z.mod_pos_bound (st_size buf) (2 ^ 32) ltac:(lia)). lia.
    - rewrite Z.mod_small by lia. lia. }
  repeat case_match; apply Hfields; reflexivity.
Qed.

Lemma os_file_stat_size_witness :
  let buf := mkStatBuf 6442450945 0 0 0 0 in
  let info := mkQFileInfo true false [] false true false in
  let fs := mkFileSystem (fun _ => Some buf) (fun _ => Some buf) (fun _ => info) 1 2 4 in
  let s' := (os_file_stat fs true [] true (mkFileStat 0 0 0 0 0 0 0)).2 in
  (sizelo s' = 2147483649 /\ sizehi s' = 1) /\
  sizelo s' + 2 ^ 32 * sizehi s' = st_size buf /\
  0 <= sizelo s' < 2 ^ 32 /\ 0 <= sizehi s' < 2 ^ 32.
Proof.
  intros buf info fs. split; [split; reflexivity|].
  apply (os_file_stat_size fs true [] true (mkFileStat 0 0 0 0 0 0 0) buf);
    [reflexivity | vm_compute; split; [intros H; discriminate H | reflexivity]].
Defined.

Lemma root_dirs_foldl drives acc :
  length (foldl (fun str path => str ++ path ++ [NUL]) acc drives) =
  (length acc + sum_list ((fun path => S (length path)) <$> drives))%nat.
Proof.
  revert acc. induction drives as [|p drives IH]; intros acc; cbn [foldl fmap list_fmap sum_list].
  - lia.
  - rewrite IH, !length_app. cbn [length]. simpl. lia.
Qed.

Lemma root_dirs_foldl_last drives acc :
  drives <> [] ->
  exists front, foldl (fun str path => str ++ path ++ [NUL]) acc drives = front ++ [NUL].
Proof.
  revert acc. induction drives as [|p drives IH]; intros acc Hne; [done|].
  cbn [foldl]. destruct drives as [|q drives].
  - cbn [foldl]. exists (acc ++ p). by rewrite <- app_assoc.
  - by apply IH.
Qed.

(** X16: [os_get_root_dirs] returns 0 and writes nothing when there is no
    root directory; otherwise it returns the size of the list it built, one
    byte more than the paths with a terminator each, and the list ends with
    two null bytes; the buffer is written only if it is not null and at
    least that large, and then holds the list, the bytes after it
    untouched. *)
Theorem os_get_root_dirs_result drives buf buflen :
  let r := os_get_root_dirs drives buf buflen in
  (drives = [] -> r = (buf, 0%nat)) /\
  (drives <> [] ->
     r.2 = S (sum_list ((fun path => S (length path)) <$> drives)) /\
     (exists front, root_dirs_string drives = front ++ [NUL; NUL]) /\
     match buf with
     | None => r.1 = None
     | Some old =>
         if (r.2 <=? buflen)%nat
         then r.1 = Some (root_dirs_string drives ++ drop r.2 old)
         else r.1 = Some old
     end).
Proof.
  cbv zeta. unfold os_get_root_dirs. split.
  - by intros ->.
  - intros Hne. destruct drives as [|p drives]; [done|]. cbn [length Nat.eqb]. cbv zeta.
    cbn [fst snd]. split; [|split].
    + unfold root_dirs_string. rewrite length_app, root_dirs_foldl. cbn [length]. lia.
    + unfold root_dirs_string.
      destruct (root_dirs_foldl_last (p :: drives) [] Hne) as [front ->].
      exists front. by rewrite <- app_assoc.
    + destruct buf as [old|]; [|done]. by destruct (_ <=? _)%nat.
Qed.

(** ** The input dialog *)

(** X13: [os_input_dialog] indexes its button list at [default_index - 1]
    whenever [default_index] or [cancel_index] is not 0, so it stays inside
    the list exactly when both are 0 or [default_index] is between 1 and
    the number of buttons; in particular a call with a cancel index and no
    default index reads outside the list. *)
Theorem os_input_dialog_in_bounds decode title icon prompt set buttons dflt cancel clicked :
  let n := match set with
           | OwnButtons => length buttons
           | OS_INDLG_OK => 1%nat
           | OS_INDLG_OKCANCEL | OS_INDLG_YESNO => 2%nat
           | OS_INDLG_YESNOCANCEL => 3%nat
           | OtherButtonSet => 0%nat
           end in
  is_Some (os_input_dialog decode title icon prompt set buttons dflt cancel clicked) <->
  (dflt = 0 /\ cancel = 0) \/ 1 <= dflt <= Z.of_nat n.
Proof.
  cbv zeta. unfold os_input_dialog. cbv zeta.
  set (bl := match set with OwnButtons => _ | _ => _ end).
  assert (Hn : length bl =
    match set with
    | OwnButtons => length buttons
    | OS_INDLG_OK => 1%nat
    | OS_INDLG_OKCANCEL | OS_INDLG_YESNO => 2%nat
    | OS_INDLG_YESNOCANCEL => 3%nat
    | OtherButtonSet => 0%nat
    end).
  { unfold bl. destruct set; cbn [length]; by rewrite ?length_fmap. }
  rewrite <- Hn. clearbody bl. clear Hn. unfold button_index.
  destruct (dflt =? 0) eqn:Hd; [apply Z.eqb_eq in Hd|apply Z.eqb_neq in Hd];
    destruct (cancel =? 0) eqn:Hc; [apply Z.eqb_eq in Hc| apply Z.eqb_neq in Hc| |];
    destruct (0 <=? dflt - 1) eqn:H0; try apply Z.leb_le in H0; try apply Z.leb_gt in H0;
    destruct (dflt - 1 <? Z.of_nat (length bl)) eqn:H1;
      try apply Z.ltb_lt in H1; try apply Z.ltb_ge in H1;
    cbn [andb fmap option_fmap option_map mbind option_bind];
    (split; [intros [? ?]; simplify_eq; try lia | intros ?; try (by eexists); try lia]).
Qed.

(** X14: when the call stays inside the list, the escape button (set only
    if [cancel_index] is not 0) is the default button, whatever the value of
    [cancel_index]; the value returned is the position of the clicked button
    counted from 1, hence between 1 and the number of buttons, or
    [cancel_index] when the dialog was closed without a button. *)
Theorem os_input_dialog_result decode title icon prompt set buttons dflt cancel clicked mb r :
  os_input_dialog decode title icon prompt set buttons dflt cancel clicked = Some (mb, r) ->
  mb_escape mb = (if cancel =? 0 then None else mb_default mb) /\
  (cancel <> 0 -> mb_default mb = Some (Z.to_nat (dflt - 1))) /\
  match clicked with
  | None => r = cancel
  | Some i => (i < length (mb_buttons mb))%nat ->
              r = Z.of_nat i + 1 /\ 1 <= r <= Z.of_nat (length (mb_buttons mb))
  end.
Proof.
  unfold os_input_dialog. cbv zeta.
  set (bl := match set with OwnButtons => _ | _ => _ end). clearbody bl.
  unfold button_index. intros H.
  assert (Hret : forall buttons0 : list DialogButton,
            match clicked with
            | None => (match clicked with
                       | None => cancel
                       | Some i => if (i <? length buttons0)%nat then Z.of_nat i + 1 else 0
                       end) = cancel
            | Some i => (i < length buttons0)%nat ->
                (match clicked with
                 | None => cancel
                 | Some i => if (i <? length buttons0)%nat then Z.of_nat i + 1 else 0
                 end) = Z.of_nat i + 1 /\
                1 <= (match clicked with
                      | None => cancel
                      | Some i => if (i <? length buttons0)%nat then Z.of_nat i + 1 else 0
                      end) <= Z.of_nat (length buttons0)
            end).
  { intros bs. destruct clicked as [i|]; [|done]. intros Hi.
    rewrite (proj2 (Nat.ltb_lt _ _) Hi). lia. }
  destruct (Z.eqb_spec dflt 0) as [Hd|Hd], (Z.eqb_spec cancel 0) as [Hc|Hc];
    destruct ((0 <=? dflt - 1) && (dflt - 1 <? Z.of_nat (length bl))) eqn:Hin;
    cbn [fmap option_fmap option_map mbind option_bind] in H; simplify_eq;
    cbn [mb_escape mb_default mb_buttons];
    try (cbn in Hin; discriminate);
    (split; [done|]); (split; [done|]); apply Hret.
Qed.

Lemma os_input_dialog_result_witness :
  let mb := mkMessageBox "Save?" Question [ButtonYes; ButtonNo; ButtonCancel]
              (Some 0%nat) (Some 0%nat) "QTads " in
  os_input_dialog id "QTads" OS_INDLG_ICON_QUESTION "Save?" OS_INDLG_YESNOCANCEL []
    1 3 (Some 2%nat) = Some (mb, 3) /\
  (mb_escape mb = (if 3 =? 0 then None else mb_default mb) /\
   (3 <> 0 -> mb_default mb = Some (Z.to_nat (1 - 1))) /\
   ((2 < length (mb_buttons mb))%nat ->
    3 = Z.of_nat 2 + 1 /\ 1 <= 3 <= Z.of_nat (length (mb_buttons mb)))).
Proof.
  intros mb. split; [reflexivity|].
  apply (os_input_dialog_result id "QTads" OS_INDLG_ICON_QUESTION "Save?"
           OS_INDLG_YESNOCANCEL [] 1 3 (Some 2%nat) mb 3).
  reflexivity.
Defined.
